(** * Amplitude Shift Keying simulator

    A shallow embedding of [src/amplitude_shift_keying.py] (class [ASK]) and
    the properties of its pipeline: carrier generation, modulation, noise,
    demodulation, bit error rate, the results table and the noise sweep.

    Numbers.  Python [int]s are [Z].  numpy [float64] samples are read as the
    real numbers they denote ([R]): comparison, absolute value, negation and
    the product of a sample with a bit are exact on floats, so thresholding
    and the majority vote are modelled without loss; [np.sin], [np.sqrt],
    [**] and the sums are the real functions, i.e. rounding is left out.
    A literal such as [0.4] is read as the decimal it writes, in the code
    and in the statements alike (the float nearest to it is about [2e-17]
    away).  [int(a / b)] is the quotient truncated towards zero, which is
    what the float division gives while [a + b] stays below [2^53].

    Effects.  Exceptions are values of [result], with the chain of [ASK]
    methods they crossed.  The methods that draw random numbers or write
    the results table run in a state monad over a [world]; an exception
    leaves the world as it was when raised, as in Python.  [demo_run],
    which only dumps the arrays of one run with [np.save], is left out. *)

From Stdlib Require Import String Ascii DecimalString.
From Stdlib Require Import Reals Lra Lia ZArith List Bool.
Import ListNotations.

Open Scope R_scope.

(** ** Exceptions and the two monads *)

Inductive method : Set :=
| m_init | m_generateSignal | m_modulation | m_addNoise | m_demodulation
| m_calculateBER | m_save_to_csv | m_one_run | m_simulate.

Inductive exn : Set :=
| ZeroDivisionError | ValueError | IndexError | FileNotFoundError.

(** [Raise tb e]: exception [e]; [tb] lists the methods it has propagated
    through, outermost first. *)
Inductive result (A : Type) : Type :=
| Ok (a : A)
| Raise (tb : list method) (e : exn).

Arguments Ok {A} a.
Arguments Raise {A} tb e.

Definition rbind {A B} (r : result A) (k : A -> result B) : result B :=
  match r with
  | Ok a => k a
  | Raise tb e => Raise tb e
  end.

(** Entering method [m]: an exception that leaves it has [m] on its chain. *)
Definition call {A} (m : method) (r : result A) : result A :=
  match r with
  | Ok a => Ok a
  | Raise tb e => Raise (m :: tb) e
  end.

Declare Scope py_scope.
Delimit Scope py_scope with py.
Notation "x <- r ;; k" := (rbind r (fun x => k))
  (at level 61, r at next level, right associativity) : py_scope.
Open Scope py_scope.

(** ** numpy on one-dimensional arrays *)

Module Np.

(** [np.zeros(n)] *)
Definition zeros (n : Z) : result (list R) :=
  if (n <? 0)%Z then Raise [] ValueError else Ok (repeat 0 (Z.to_nat n)).

(** [range(n)], also [np.arange(n)] *)
Definition arange (n : Z) : list Z := map Z.of_nat (seq 0 (Z.to_nat n)).

Definition set_last (v : R) (y : list R) : list R := removelast y ++ [v].

(** [np.linspace(start, stop, num)] with the end point included: the grid
    is [arange(num) * step + start], and for [num > 1] the last sample is
    overwritten by [stop]. *)
Definition linspace (start stop : R) (num : Z) : result (list R) :=
  if (num <? 0)%Z then Raise [] ValueError
  else
    let div := (num - 1)%Z in
    let delta := stop - start in
    let y := map IZR (arange num) in
    let y := if (0 <? div)%Z
             then map (fun v => v * (delta / IZR div)) y
             else map (fun v => v * delta) y in
    let y := map (fun v => v + start) y in
    Ok (if (1 <? num)%Z then set_last stop y else y).

(** [np.repeat(a, k)] *)
Definition repeat {A} (a : list A) (k : Z) : result (list A) :=
  if (k <? 0)%Z then Raise [] ValueError
  else Ok (flat_map (fun x => List.repeat x (Z.to_nat k)) a).

Fixpoint zip_with {A B C} (f : A -> B -> C) (xs : list A) (ys : list B)
  : list C :=
  match xs, ys with
  | x :: xs', y :: ys' => f x y :: zip_with f xs' ys'
  | _, _ => []
  end.

(** An element-wise binary operation with numpy's broadcasting: equal
    lengths pair up, a one-element array is stretched, anything else is a
    shape mismatch. *)
Definition broadcast {A B C} (f : A -> B -> C) (xs : list A) (ys : list B)
  : result (list C) :=
  if (length xs =? length ys)%nat then Ok (zip_with f xs ys)
  else match xs, ys with
       | [x], _ => Ok (map (f x) ys)
       | _, [y] => Ok (map (fun x => f x y) xs)
       | _, _ => Raise [] ValueError
       end.

Definition multiply : list R -> list R -> result (list R) := broadcast Rmult.
Definition add : list R -> list R -> result (list R) := broadcast Rplus.
Definition not_equal : list Z -> list Z -> result (list bool) :=
  broadcast (fun x y => negb (x =? y)%Z).

Definition absolute (a : list R) : list R := map Rabs a.

(** [a[i]] for [i >= 0] *)
Definition getitem {A} (a : list A) (i : nat) : result A :=
  match nth_error a i with
  | Some x => Ok x
  | None => Raise [] IndexError
  end.

(** [a[i] = v] for [i >= 0] *)
Fixpoint setitem {A} (a : list A) (i : nat) (v : A) : result (list A) :=
  match a, i with
  | [], _ => Raise [] IndexError
  | _ :: a', O => Ok (v :: a')
  | x :: a', S i' => a'' <- setitem a' i' v ;; Ok (x :: a'')
  end.

Fixpoint chunks {A} (each n : nat) (a : list A) : list (list A) :=
  match n with
  | O => []
  | S n' => firstn each a :: chunks each n' (skipn each a)
  end.

(** [np.split(ary, sections)] with an integer [sections]: the division
    must be exact. *)
Definition split {A} (ary : list A) (sections : Z) : result (list (list A)) :=
  let N := Z.of_nat (length ary) in
  if (sections =? 0)%Z then Raise [] ZeroDivisionError
  else if negb (N mod sections =? 0)%Z then Raise [] ValueError
  else if (sections <=? 0)%Z then Raise [] ValueError
  else Ok (chunks (Z.to_nat (N / sections)) (Z.to_nat sections) ary).

(** [np.sum] of floats, and of booleans (the number of [True]s) *)
Definition sum (a : list R) : R := fold_right Rplus 0 a.
Definition count_true (a : list bool) : Z :=
  fold_right (fun (b : bool) (n : Z) => if b then (n + 1)%Z else n) 0%Z a.

(** [np.rint]: to the nearest integer, ties to the even one *)
Definition rint (x : R) : Z :=
  let f := Int_part x in
  let d := x - IZR f in
  if Rlt_dec d (1 / 2) then f
  else if Rlt_dec (1 / 2) d then (f + 1)%Z
  else if Z.even f then f else (f + 1)%Z.

(** [np.round(x, 1)] *)
Definition round1 (x : R) : R := IZR (rint (x * 10)) / 10.

End Np.

(** [int(a / b)] on Python integers *)
Definition int_truediv (a b : Z) : result Z :=
  if (b =? 0)%Z then Raise [] ZeroDivisionError else Ok (Z.quot a b).

(** [str(n)] of an integer *)
Definition str_int (n : Z) : string := NilZero.string_of_int (Z.to_int n).

(** Carriage return, line feed: the line terminator of [csv.writer]. *)
Definition CRLF : string := String "013" (String "010" EmptyString).

(** [csv.writer(f, delimiter=d).writerow(fields)] on fields already turned
    into text, none of which needs quoting: the fields, joined by the
    delimiter, and the line terminator. *)
Definition writerow (delimiter : string) (fields : list string) : string :=
  (String.concat delimiter fields ++ CRLF)%string.

(** ** The class [ASK] *)

Record ASK : Type := {
  sampling_frec : Z;
  carry_frec : Z;
  bits_num : Z;
  noise : R;
  time : list R;
  samp_per_bit : Z
}.

Definition __init__ (sampling_frec carry_frec bits_num : Z) (noise : R)
  : result ASK :=
  call m_init
    (time <- Np.linspace 0 1 sampling_frec ;;
     samp_per_bit <- int_truediv sampling_frec bits_num ;;
     Ok (Build_ASK sampling_frec carry_frec bits_num noise time samp_per_bit)).

(** [np.sin] and [np.pi] are the real sine and pi: the floats of the code
    differ from these samples by rounding, so a sample that is 0 here for
    being the sine of a multiple of pi is a float of the order of 1e-16
    there. *)
Definition generateCarryWave (self : ASK) : list R :=
  map (fun t => sin (2 * PI * IZR (carry_frec self) * t)) (time self).

Definition modulation (self : ASK) (message : list Z) (carry_wave : list R)
  : result (list R) :=
  call m_modulation
    (cont_msg <- Np.repeat message (samp_per_bit self) ;;
     Np.multiply carry_wave (map IZR cont_msg)).

(** The chip written for one rectified sample. *)
Definition chip (x : R) : R := if Rgt_dec x 0.4 then 1 else 0.

(** [for i in idx: recieved_signal[i] = 1 if signal[i] > 0.4 else 0] *)
Fixpoint threshold_loop (signal : list R) (idx : list Z)
  (recieved_signal : list R) : result (list R) :=
  match idx with
  | [] => Ok recieved_signal
  | i :: idx' =>
      x <- Np.getitem signal (Z.to_nat i) ;;
      recieved_signal <- Np.setitem recieved_signal (Z.to_nat i) (chip x) ;;
      threshold_loop signal idx' recieved_signal
  end.

(** The body of the loop over the segments: the bit appended for one. *)
Definition decide_bit (self : ASK) (array : list R) : Z :=
  let arr_sum := Np.sum array in
  if Rgt_dec arr_sum (IZR (samp_per_bit self) / 2) then 1%Z else 0%Z.

Definition demodulation (self : ASK) (signal : list R) : result (list Z) :=
  call m_demodulation
    (recieved_signal <- Np.zeros (sampling_frec self) ;;
     let signal := Np.absolute signal in
     recieved_signal <-
       threshold_loop signal (Np.arange (sampling_frec self)) recieved_signal ;;
     splited <- Np.split recieved_signal (bits_num self) ;;
     Ok (map (decide_bit self) splited)).

(** [errors / self.bits_num] divides a numpy integer: with a zero divisor
    numpy warns and gives [inf] or [nan] instead of raising, which is read
    here as the unspecified real [x / 0]. *)
Definition calculateBER (self : ASK) (original_message received_message : list Z)
  : result R :=
  call m_calculateBER
    (neq <- Np.not_equal original_message received_message ;;
     let errors := Np.count_true neq in
     Ok (IZR errors / IZR (bits_num self))).

(** [self.noise = v] *)
Definition set_noise (self : ASK) (v : R) : ASK :=
  Build_ASK (sampling_frec self) (carry_frec self) (bits_num self) v
    (time self) (samp_per_bit self).

(** The noise level of the sweep at index [n]. *)
Definition sweep_noise (n : Z) : R :=
  let EbNo := Rpower 10 (IZR n / 10) in
  1 / sqrt (2 * EbNo) * 2.

(** ** Methods with effects *)

Section Effects.

(** The random source behind [np.random] and Python's [str] on floats are
    parameters of the model. *)
Variable rng : Type.
Variable next_bit : rng -> bool * rng.
Variable next_gauss : rng -> R * rng.
Variable str_float : R -> string.

Record world : Type := {
  random_state : rng;
  output_dir : bool;      (* whether the directory data/output/ exists *)
  bers_csv : string;      (* data/output/bers.csv, empty while absent *)
  stdout : list string
}.

Definition M (A : Type) : Type := world -> result A * world.

Definition ret {A} (a : A) : M A := fun w => (Ok a, w).

Definition bind {A B} (c : M A) (k : A -> M B) : M B :=
  fun w => match c w with
           | (Ok a, w') => k a w'
           | (Raise tb e, w') => (Raise tb e, w')
           end.

Definition lift {A} (r : result A) : M A := fun w => (r, w).

Definition callM {A} (m : method) (c : M A) : M A :=
  fun w => let (r, w') := c w in (call m r, w').

Notation "x <~ c ;; k" := (bind c (fun x => k))
  (at level 61, c at next level, right associativity).

Fixpoint draw {A} (next : rng -> A * rng) (n : nat) (s : rng)
  : list A * rng :=
  match n with
  | O => ([], s)
  | S n' => let (x, s') := next s in
            let (xs, s'') := draw next n' s' in
            (x :: xs, s'')
  end.

Definition set_random_state (w : world) (s : rng) : world :=
  Build_world s (output_dir w) (bers_csv w) (stdout w).

(** [np.random.randint(2, size=size)] *)
Definition randint2 (size : Z) : M (list Z) :=
  fun w =>
    if (size <? 0)%Z then (Raise [] ValueError, w)
    else let (bs, s) := draw next_bit (Z.to_nat size) (random_state w) in
         (Ok (map (fun b : bool => if b then 1%Z else 0%Z) bs),
          set_random_state w s).

(** [np.random.normal(loc, scale, size)] *)
Definition normal (loc scale : R) (size : nat) : M (list R) :=
  fun w =>
    if Rlt_dec scale 0 then (Raise [] ValueError, w)
    else let (zs, s) := draw next_gauss size (random_state w) in
         (Ok (map (fun z => loc + scale * z) zs), set_random_state w s).

(** [open('data/output/bers.csv', 'a', newline='')] *)
Definition open_bers_csv : M unit :=
  fun w => if output_dir w then (Ok tt, w)
           else (Raise [] FileNotFoundError, w).

Definition write_bers_csv (text : string) : M unit :=
  fun w => (Ok tt,
            Build_world (random_state w) (output_dir w)
              (bers_csv w ++ text)%string (stdout w)).

Definition print (line : string) : M unit :=
  fun w => (Ok tt,
            Build_world (random_state w) (output_dir w) (bers_csv w)
              (stdout w ++ [line])).

Definition generateSignal (self : ASK) : M (list Z) :=
  callM m_generateSignal (randint2 (bits_num self)).

Definition addNoise (self : ASK) (signal : list R) : M (list R) :=
  callM m_addNoise
    (noise <~ normal 0 (noise self) (length signal) ;;
     lift (Np.add signal noise)).

Definition csv_fields (self : ASK) (float_data : R) (EbNodB : Z)
  : list string :=
  [ "ASK"%string; str_int (sampling_frec self); str_int (carry_frec self);
    str_int (bits_num self); str_float (Np.round1 (noise self));
    str_float float_data; str_int EbNodB ].

Definition save_to_csv (self : ASK) (float_data : R) (EbNodB : Z) : M unit :=
  callM m_save_to_csv
    (_ <~ open_bers_csv ;;
     write_bers_csv (writerow ";" (csv_fields self float_data EbNodB))).

Definition one_run (self : ASK) (EbNodB : Z) : M unit :=
  callM m_one_run
    (let carry_wave := generateCarryWave self in
     message <~ generateSignal self ;;
     signal <~ lift (modulation self message carry_wave) ;;
     noisy_signal <~ addNoise self signal ;;
     received_signal <~ lift (demodulation self noisy_signal) ;;
     ber <~ lift (calculateBER self message received_signal) ;;
     save_to_csv self ber EbNodB).

(** [for n in ns: self.noise = ...; self.one_run(n)]; the object is
    returned with the noise level last assigned. *)
Fixpoint simulate_loop (self : ASK) (ns : list Z) : M ASK :=
  match ns with
  | [] => ret self
  | n :: ns' =>
      let self := set_noise self (sweep_noise n) in
      _ <~ one_run self n ;;
      simulate_loop self ns'
  end.

Definition simulate (self : ASK) : M ASK :=
  callM m_simulate
    (self <~ simulate_loop self (Np.arange 12) ;;
     _ <~ print "Koniec symulacji modulacji ASK" ;;
     ret self).

End Effects.

Arguments random_state {rng} w.
Arguments output_dir {rng} w.
Arguments bers_csv {rng} w.
Arguments stdout {rng} w.
Arguments Build_world {rng}.
Arguments set_random_state {rng} w s.
Arguments ret {rng A} a w.
Arguments bind {rng A B} c k w.
Arguments lift {rng A} r w.
Arguments callM {rng A} m c w.
Arguments draw {rng A} next n s.
Arguments randint2 {rng} next_bit size w.
Arguments normal {rng} next_gauss loc scale size w.
Arguments open_bers_csv {rng} w.
Arguments write_bers_csv {rng} text w.
Arguments print {rng} line w.
Arguments generateSignal {rng} next_bit self w.
Arguments addNoise {rng} next_gauss self signal w.
Arguments save_to_csv {rng} str_float self float_data EbNodB w.
Arguments one_run {rng} next_bit next_gauss str_float self EbNodB w.
Arguments simulate_loop {rng} next_bit next_gauss str_float self ns w.
Arguments simulate {rng} next_bit next_gauss str_float self w.

(** [ASK(sampling_frec, carry_frec, bits_num, noise).one_run(EbNodB)]: the
    object is built, then the run is made on it. *)
Definition new_one_run {rng} (next_bit : rng -> bool * rng)
  (next_gauss : rng -> R * rng) (str_float : R -> string)
  (sampling_frec carry_frec bits_num : Z) (noise : R) (EbNodB : Z)
  (w : world rng) : result unit * world rng :=
  match __init__ sampling_frec carry_frec bits_num noise with
  | Ok self => one_run next_bit next_gauss str_float self EbNodB w
  | Raise tb e => (Raise tb e, w)
  end.

(** ** Vocabulary of the statements *)

(** The chips of a signal: the content of [recieved_signal] after the loop. *)
Definition chips (self : ASK) (signal : list R) : list R :=
  map chip (firstn (Z.to_nat (sampling_frec self)) (Np.absolute signal)).

(** The samples of segment [k] when the chips are cut into pieces of
    [each]: the chips of samples [k * each], ..., [k * each + each - 1]. *)
Definition segment_chips (signal : list R) (each k : nat) : list R :=
  map (fun j => chip (Rabs (nth (k * each + j) signal 0))) (seq 0 each).

(** The number of positions at which two sequences differ. *)
Fixpoint differing (xs ys : list Z) : Z :=
  match xs, ys with
  | x :: xs', y :: ys' =>
      ((if (x =? y)%Z then 0 else 1) + differing xs' ys')%Z
  | _, _ => 0%Z
  end.

(** What [__init__] establishes and [self.noise = ...] preserves, for a
    positive bit count. *)
Definition well_formed (self : ASK) : Prop :=
  (0 <= sampling_frec self)%Z
  /\ (0 < bits_num self)%Z
  /\ length (time self) = Z.to_nat (sampling_frec self)
  /\ samp_per_bit self = (sampling_frec self / bits_num self)%Z.

(** Two worlds that differ at most in the state of the random source. *)
Definition same_files {rng} (w w' : world rng) : Prop :=
  output_dir w' = output_dir w /\ bers_csv w' = bers_csv w
  /\ stdout w' = stdout w.

(** The world after [print(line)]. *)
Definition printed {rng} (line : string) (w : world rng) : world rng :=
  Build_world (random_state w) (output_dir w) (bers_csv w)
    (stdout w ++ [line]).

(** For 1000 samples and a carrier of frequency 10, sample [i] sits at the
    phase [pi * (20 i / 999)].  It is called strong when the remainder of
    [20 i] by 999 lies between 167 and 832, that is when the phase is
    between a sixth and five sixths of a half-turn, where the sine has
    magnitude at least 1/2. *)
Definition strong_sample (i : nat) : bool :=
  let r := ((20 * Z.of_nat i) mod 999)%Z in
  ((167 <=? r) && (r <=? 832))%Z.

(** The number of strong samples among the 100 samples of bit [k]. *)
Definition strong_count (k : nat) : nat :=
  length (filter (fun j => strong_sample (k * 100 + j)) (seq 0 100)).

(** ** Small instances *)

(** A four-sample, two-bit simulator used to run the model on small
    inputs. *)
Definition tiny : ASK := Build_ASK 4 1 2 0 [0; 1 / 3; 2 / 3; 1] 2.

(** Five samples for two bits: a partition that is not exact. *)
Definition uneven : ASK := Build_ASK 5 1 2 0 [0; 1 / 4; 2 / 4; 3 / 4; 1] 2.

(** A world for running the model: a random source that always draws the
    bit 1 and the deviate 0, floats printed as a fixed word, the output
    directory in place and an empty results table. *)
Definition toy_bit (s : unit) : bool * unit := (true, s).
Definition toy_gauss (s : unit) : R * unit := (0, s).
Definition toy_str (x : R) : string := "<float>"%string.
Definition toy_world : world unit := Build_world tt true ""%string [].

(** ** [demo_run] and the files it dumps *)

(** What [np.save] is given: an array of integers or of floats. *)
Inductive ndarray : Type :=
| IntArray (a : list Z)
| FloatArray (a : list R).

(** The directory data/output/ASK/ and its four files, each [None] while
    absent. *)
Record ask_dir : Type := {
  ask_dir_exists : bool;
  message_npy : option ndarray;
  signal_npy : option ndarray;
  noisy_signal_npy : option ndarray;
  received_signal_npy : option ndarray
}.

Inductive npy_file : Set :=
| message_file | signal_file | noisy_signal_file | received_signal_file.

(** The directory after [arr] has been written to file [f], replacing
    what the file held. *)
Definition store (f : npy_file) (arr : ndarray) (d : ask_dir) : ask_dir :=
  match f with
  | message_file =>
      Build_ask_dir (ask_dir_exists d) (Some arr) (signal_npy d)
        (noisy_signal_npy d) (received_signal_npy d)
  | signal_file =>
      Build_ask_dir (ask_dir_exists d) (message_npy d) (Some arr)
        (noisy_signal_npy d) (received_signal_npy d)
  | noisy_signal_file =>
      Build_ask_dir (ask_dir_exists d) (message_npy d) (signal_npy d)
        (Some arr) (received_signal_npy d)
  | received_signal_file =>
      Build_ask_dir (ask_dir_exists d) (message_npy d) (signal_npy d)
        (noisy_signal_npy d) (Some arr)
  end.

Section Demo.

Variable rng : Type.
Variable next_bit : rng -> bool * rng.
Variable next_gauss : rng -> R * rng.

(** [demo_run] runs over the world of the other methods and the
    directory of its files. *)
Definition D (A : Type) : Type :=
  world rng * ask_dir -> result A * (world rng * ask_dir).

Definition dbind {A B} (c : D A) (k : A -> D B) : D B :=
  fun st => match c st with
            | (Ok a, st') => k a st'
            | (Raise tb e, st') => (Raise tb e, st')
            end.

(** A method of the world, run beside the directory. *)
Definition in_world {A} (c : world rng -> result A * world rng) : D A :=
  fun st => let (r, w') := c (fst st) in (r, (w', snd st)).

Definition pure_step {A} (r : result A) : D A := fun st => (r, st).

(** [np.save('data/output/ASK/<f>.npy', arr)] *)
Definition np_save (f : npy_file) (arr : ndarray) : D unit :=
  fun st =>
    if ask_dir_exists (snd st)
    then (Ok tt, (fst st, store f arr (snd st)))
    else (Raise [] FileNotFoundError, st).

Notation "x <~ c ;; k" := (dbind c (fun x => k))
  (at level 61, c at next level, right associativity).

(** The chain of an exception that leaves [demo_run] starts at the method
    it came from. *)
Definition demo_run (self : ASK) : D unit :=
  let carry_wave := generateCarryWave self in
  message <~ in_world (generateSignal next_bit self) ;;
  _ <~ np_save message_file (IntArray message) ;;
  signal <~ pure_step (modulation self message carry_wave) ;;
  _ <~ np_save signal_file (FloatArray signal) ;;
  noisy_signal <~ in_world (addNoise next_gauss self signal) ;;
  _ <~ np_save noisy_signal_file (FloatArray noisy_signal) ;;
  received_signal <~ pure_step (demodulation self noisy_signal) ;;
  np_save received_signal_file (IntArray received_signal).

End Demo.

Arguments dbind {rng A B} c k st.
Arguments in_world {rng A} c st.
Arguments pure_step {rng A} r st.
Arguments np_save {rng} f arr st.
Arguments demo_run {rng} next_bit next_gauss self st.

(** An empty directory data/output/ASK/. *)
Definition empty_ask_dir : ask_dir := Build_ask_dir true None None None None.

(** ** Tactics *)

(** Running the model on concrete input: the structure is computed, the
    comparisons of reals that remain are settled by [lra], innermost
    first. *)
Ltac np_eval :=
  cbv - [Rabs Rgt_dec Rlt_dec Rplus Rmult Rdiv Rminus Ropp Rinv IZR
         sin PI sqrt Rpower Int_part].

Ltac settle_comparisons :=
  repeat match goal with
    | |- context [Rabs ?x] =>
        first [ rewrite (Rabs_right x) by lra
              | rewrite (Rabs_left x) by lra ]
    | |- context [Rgt_dec ?x ?y] =>
        lazymatch x with context [Rgt_dec _ _] => fail | _ => idtac end;
        destruct (Rgt_dec x y); [try (exfalso; lra) | try (exfalso; lra)]
    | |- context [Rlt_dec ?x ?y] =>
        destruct (Rlt_dec x y); [try (exfalso; lra) | try (exfalso; lra)]
    end.

(** * Properties *)

(** ** Arrays *)

Section Arrays.

Context {A : Type}.
Implicit Types (a : list A) (i k n : nat).

Lemma setitem_ok a i (v : A) :
  (i < length a)%nat ->
  Np.setitem a i v = Ok (firstn i a ++ v :: skipn (S i) a).
Proof.
  revert i; induction a as [|x a IH]; intros [|i] H; simpl in *;
    try lia; auto.
  rewrite IH by lia. reflexivity.
Qed.

Lemma skipn_cons_nth_error a i (x : A) :
  nth_error a i = Some x -> skipn i a = x :: skipn (S i) a.
Proof.
  revert i; induction a as [|y a IH]; intros [|i] H; simpl in *;
    try discriminate.
  - now inversion H.
  - now apply IH.
Qed.

Lemma firstn_snoc_middle a i (v : A) (tl : list A) :
  (i <= length a)%nat ->
  firstn (S i) (firstn i a ++ v :: tl) = firstn i a ++ [v].
Proof.
  intros H. rewrite firstn_app, length_firstn, Nat.min_l by lia.
  rewrite firstn_all2 by (rewrite length_firstn; lia).
  replace (S i - i)%nat with 1%nat by lia. reflexivity.
Qed.

Lemma chunks_length each n a : length (Np.chunks each n a) = n.
Proof.
  revert a; induction n as [|n IH]; intros a; simpl; auto.
Qed.

Lemma chunks_nth each n a k :
  (k < n)%nat ->
  nth k (Np.chunks each n a) [] = firstn each (skipn (k * each) a).
Proof.
  revert a k; induction n as [|n IH]; intros a [|k] H; simpl; try lia; auto.
  rewrite IH by lia. rewrite skipn_skipn.
  f_equal. f_equal. lia.
Qed.

Lemma nth_map_seq {B} (f : nat -> B) (d : B) (s len j : nat) :
  (j < len)%nat -> nth j (map f (seq s len)) d = f (s + j)%nat.
Proof.
  intros H. rewrite (nth_indep _ d (f 0%nat)) by now rewrite length_map, length_seq.
  rewrite map_nth, seq_nth by lia. reflexivity.
Qed.

Lemma firstn_skipn_nth (d : A) a (start len : nat) :
  (start + len <= length a)%nat ->
  firstn len (skipn start a)
  = map (fun j => nth (start + j) a d) (seq 0 len).
Proof.
  intros H. apply nth_ext with (d := d) (d' := d).
  - rewrite length_firstn, length_skipn, length_map, length_seq. lia.
  - intros j Hj. rewrite length_firstn, length_skipn in Hj.
    rewrite nth_firstn.
    destruct (Nat.ltb_spec j len) as [Hlt|]; [|lia].
    rewrite nth_skipn, nth_map_seq by lia. reflexivity.
Qed.

Lemma flat_map_repeat_length a n :
  length (flat_map (fun x => List.repeat x n) a) = (length a * n)%nat.
Proof.
  induction a as [|x a IH]; simpl; auto.
  rewrite length_app, repeat_length, IH. reflexivity.
Qed.

Lemma flat_map_repeat_nth (d : A) a n k j :
  (k < length a)%nat -> (j < n)%nat ->
  nth (k * n + j) (flat_map (fun x => List.repeat x n) a) d = nth k a d.
Proof.
  revert k; induction a as [|x a IH]; intros k Hk Hj; simpl in *; [lia|].
  destruct k as [|k]; simpl.
  - rewrite app_nth1 by (rewrite repeat_length; lia).
    now apply nth_repeat_lt.
  - rewrite app_nth2 by (rewrite repeat_length; lia).
    rewrite repeat_length.
    replace (n + k * n + j - n)%nat with (k * n + j)%nat by lia.
    apply IH; lia.
Qed.

End Arrays.

Lemma zip_with_length {A B C} (f : A -> B -> C) xs ys :
  length (Np.zip_with f xs ys) = Nat.min (length xs) (length ys).
Proof.
  revert ys; induction xs as [|x xs IH]; intros [|y ys]; simpl; auto.
Qed.

Lemma zip_with_nth {A B C} (f : A -> B -> C) xs ys i dx dy dz :
  (i < length xs)%nat -> (i < length ys)%nat ->
  nth i (Np.zip_with f xs ys) dz = f (nth i xs dx) (nth i ys dy).
Proof.
  revert ys i; induction xs as [|x xs IH]; intros [|y ys] [|i] Hx Hy;
    simpl in *; try lia; auto.
  apply IH; lia.
Qed.

(** ** The threshold loop *)

Lemma threshold_loop_ok (signal : list R) (m : nat) :
  forall (k : nat) (rs : list R),
    length rs = (k + m)%nat -> (k + m <= length signal)%nat ->
    threshold_loop signal (map Z.of_nat (seq k m)) rs
    = Ok (firstn k rs ++ map chip (firstn m (skipn k signal))).
Proof.
  induction m as [|m IH]; intros k rs Hrs Hsig; simpl.
  - rewrite app_nil_r, firstn_all2 by lia. reflexivity.
  - rewrite Nat2Z.id. unfold Np.getitem.
    destruct (nth_error signal k) as [x|] eqn:E.
    2:{ apply nth_error_None in E. lia. }
    cbn [rbind]. rewrite setitem_ok by lia. cbn [rbind].
    rewrite IH.
    + rewrite firstn_snoc_middle by lia.
      rewrite (skipn_cons_nth_error _ _ _ E). cbn [firstn map].
      rewrite <- app_assoc. reflexivity.
    + rewrite length_app, length_firstn. cbn [length]. rewrite length_skipn. lia.
    + lia.
Qed.

Lemma threshold_loop_short (signal : list R) (m : nat) :
  forall (k : nat) (rs : list R),
    length rs = (k + m)%nat ->
    (k <= length signal)%nat -> (length signal < k + m)%nat ->
    threshold_loop signal (map Z.of_nat (seq k m)) rs = Raise [] IndexError.
Proof.
  induction m as [|m IH]; intros k rs Hrs Hlo Hhi; simpl; [lia|].
  rewrite Nat2Z.id. unfold Np.getitem.
  destruct (nth_error signal k) as [x|] eqn:E; [|reflexivity].
  assert (k < length signal)%nat by (apply nth_error_Some; congruence).
  cbn [rbind]. rewrite setitem_ok by lia. cbn [rbind].
  apply IH; try lia.
  rewrite length_app, length_firstn. cbn [length]. rewrite length_skipn. lia.
Qed.

Lemma demodulation_ok (self : ASK) (signal : list R) :
  (0 <= sampling_frec self)%Z -> (0 < bits_num self)%Z ->
  (sampling_frec self mod bits_num self = 0)%Z ->
  (Z.to_nat (sampling_frec self) <= length signal)%nat ->
  demodulation self signal
  = Ok (map (decide_bit self)
          (Np.chunks (Z.to_nat (sampling_frec self / bits_num self))
             (Z.to_nat (bits_num self)) (chips self signal))).
Proof.
  intros Hfs Hbn Hdiv Hlen. unfold demodulation, Np.zeros, Np.arange.
  destruct (Z.ltb_spec (sampling_frec self) 0) as [|_]; [lia|]. simpl.
  rewrite threshold_loop_ok;
    [| now rewrite repeat_length | unfold Np.absolute; now rewrite length_map].
  simpl. fold (Np.absolute signal). fold (chips self signal).
  unfold Np.split.
  assert (Hn : Z.of_nat (length (chips self signal)) = sampling_frec self).
  { unfold chips, Np.absolute.
    rewrite length_map, length_firstn, length_map. lia. }
  rewrite Hn, Hdiv.
  destruct (Z.eqb_spec (bits_num self) 0) as [|_]; [lia|].
  destruct (Z.leb_spec (bits_num self) 0) as [|_]; [lia|].
  reflexivity.
Qed.

(** ** Construction *)

Lemma linspace_ok (start stop : R) (num : Z) :
  (0 <= num)%Z -> exists t, Np.linspace start stop num = Ok t.
Proof.
  intros H. unfold Np.linspace.
  destruct (Z.ltb_spec num 0) as [|_]; [lia|]. eauto.
Qed.

Lemma init_divides_by_zero (fs fc : Z) (nz : R) :
  (0 <= fs)%Z -> __init__ fs fc 0 nz = Raise [m_init] ZeroDivisionError.
Proof.
  intros Hfs. destruct (linspace_ok 0 1 fs Hfs) as [t Ht].
  unfold __init__. rewrite Ht. reflexivity.
Qed.

(** C10: constructing the simulator with a bit count of zero fails with a
    division by zero raised in [__init__] while computing [samp_per_bit];
    hence no call of [__init__] with a zero bit count returns an object, and
    every object that [__init__] returns has a non-zero bit count. *)
Theorem init_zero_bits_num_raises (sampling_frec carry_frec : Z) (noise : R)
  (Hfs : (0 <= sampling_frec)%Z) :
  __init__ sampling_frec carry_frec 0 noise = Raise [m_init] ZeroDivisionError
  /\ (forall self, __init__ sampling_frec carry_frec 0 noise <> Ok self)
  /\ (forall bits_num' self,
        __init__ sampling_frec carry_frec bits_num' noise = Ok self ->
        bits_num self = bits_num' /\ bits_num self <> 0%Z).
Proof.
  destruct (linspace_ok 0 1 sampling_frec Hfs) as [t Ht].
  pose proof (init_divides_by_zero sampling_frec carry_frec noise Hfs) as E.
  split; [exact E|]. split.
  - intros self H. rewrite E in H. discriminate.
  - intros bn self. unfold __init__, int_truediv. rewrite Ht. cbn [rbind].
    destruct (Z.eqb_spec bn 0) as [->|Hne]; cbn; [discriminate|].
    intros H; inversion H; subst; cbn. auto.
Qed.

Lemma init_zero_bits_num_raises_witness :
  (0 <= 1000)%Z /\
  __init__ 1000 10 0 0 = Raise [m_init] ZeroDivisionError.
Proof.
  split; [lia|]. apply (init_zero_bits_num_raises 1000 10 0). lia.
Defined.

(** ** Demodulation *)

(** C9: demodulation only looks at the absolute value of each sample, so
    negating every sample of the input changes nothing: the same bits, or
    the same exception. *)
Theorem demodulation_negated_signal (self : ASK) (signal : list R) :
  demodulation self (map Ropp signal) = demodulation self signal.
Proof.
  unfold demodulation.
  replace (Np.absolute (map Ropp signal)) with (Np.absolute signal);
    [reflexivity|].
  unfold Np.absolute. rewrite map_map. apply map_ext.
  intros x. now rewrite Rabs_Ropp.
Qed.

Lemma chips_length (self : ASK) (signal : list R) :
  (Z.to_nat (sampling_frec self) <= length signal)%nat ->
  length (chips self signal) = Z.to_nat (sampling_frec self).
Proof.
  intros H. unfold chips, Np.absolute.
  rewrite length_map, length_firstn, length_map. lia.
Qed.

Lemma chips_nth (self : ASK) (signal : list R) (i : nat) (d : R) :
  (i < Z.to_nat (sampling_frec self))%nat ->
  (Z.to_nat (sampling_frec self) <= length signal)%nat ->
  nth i (chips self signal) d = chip (Rabs (nth i signal 0)).
Proof.
  intros Hi Hlen.
  rewrite (nth_indep _ d (chip (Rabs 0))) by (rewrite chips_length; lia).
  unfold chips, Np.absolute. rewrite map_nth, nth_firstn.
  destruct (Nat.ltb_spec i (Z.to_nat (sampling_frec self))); [|lia].
  now rewrite map_nth.
Qed.

(** Bit [k] of the demodulated message is the vote over the chips of
    samples [k * each .. k * each + each - 1], [each] being the common
    length of the [bits_num] pieces. *)
Lemma demodulation_bits (self : ASK) (signal : list R) :
  (0 <= sampling_frec self)%Z -> (0 < bits_num self)%Z ->
  (sampling_frec self mod bits_num self = 0)%Z ->
  (Z.to_nat (sampling_frec self) <= length signal)%nat ->
  exists bits,
    demodulation self signal = Ok bits
    /\ length bits = Z.to_nat (bits_num self)
    /\ forall k, (k < Z.to_nat (bits_num self))%nat ->
         nth k bits 0%Z
         = decide_bit self
             (segment_chips signal
                (Z.to_nat (sampling_frec self / bits_num self)) k).
Proof.
  intros Hfs Hbn Hdiv Hlen.
  set (each := Z.to_nat (sampling_frec self / bits_num self)).
  set (n := Z.to_nat (bits_num self)).
  assert (Hn : Z.to_nat (sampling_frec self) = (n * each)%nat).
  { unfold n, each. rewrite <- Z2Nat.inj_mul; try lia.
    - f_equal.
      pose proof (Z.div_mod (sampling_frec self) (bits_num self)). lia.
    - apply Z.div_pos; lia. }
  eexists. split; [now apply demodulation_ok|]. fold each n.
  split; [now rewrite length_map, chunks_length|].
  intros k Hk.
  rewrite (nth_indep _ 0%Z (decide_bit self []))
    by now rewrite length_map, chunks_length.
  rewrite map_nth, chunks_nth by assumption. f_equal.
  rewrite (firstn_skipn_nth 0) by (rewrite chips_length by assumption; nia).
  unfold segment_chips. apply map_ext_in. intros j Hj.
  apply in_seq in Hj. apply chips_nth; [nia|assumption].
Qed.

Lemma chip_cases (x : R) :
  (x > 0.4 -> chip x = 1) /\ (x <= 0.4 -> chip x = 0).
Proof.
  unfold chip. destruct (Rgt_dec x 0.4); split; intros; auto; lra.
Qed.

(** Demodulation returns on exactly the inputs of [demodulation_bits]. *)
Lemma demodulation_returns (self : ASK) (signal : list R) (bits : list Z) :
  demodulation self signal = Ok bits ->
  (0 <= sampling_frec self)%Z /\ (0 < bits_num self)%Z
  /\ (sampling_frec self mod bits_num self = 0)%Z
  /\ (Z.to_nat (sampling_frec self) <= length signal)%nat.
Proof.
  unfold demodulation, Np.zeros, Np.arange.
  destruct (Z.ltb_spec (sampling_frec self) 0) as [|Hfs]; [discriminate|].
  cbn [rbind].
  destruct (le_lt_dec (Z.to_nat (sampling_frec self)) (length signal))
    as [Hlong|Hshort].
  - rewrite threshold_loop_ok;
      [| now rewrite repeat_length
       | unfold Np.absolute; now rewrite length_map].
    cbn [rbind firstn skipn app]. fold (chips self signal).
    unfold Np.split. rewrite chips_length, Z2Nat.id by lia.
    destruct (Z.eqb_spec (bits_num self) 0); [discriminate|].
    destruct (Z.eqb_spec (sampling_frec self mod bits_num self) 0);
      [|discriminate].
    destruct (Z.leb_spec (bits_num self) 0); [discriminate|].
    intros _. repeat split; assumption.
  - rewrite threshold_loop_short;
      [discriminate | now rewrite repeat_length | lia
      | unfold Np.absolute; now rewrite length_map].
Qed.

(** C2: a sample of absolute value exactly 0.4 gives the chip 0, one of
    absolute value above 0.4 (such as 0.4001) gives the chip 1; and
    whenever demodulation returns, it returns [bits_num] bits of which bit
    [k] is 1 exactly when the chips of segment [k] sum to strictly more
    than [samp_per_bit / 2], and 0 otherwise. *)
Theorem demodulation_threshold_and_vote (self : ASK) (signal : list R)
  (bits : list Z) (Hret : demodulation self signal = Ok bits) :
  (forall x, Rabs x = 0.4 -> chip (Rabs x) = 0)
  /\ (forall x, Rabs x > 0.4 -> chip (Rabs x) = 1)
  /\ chip (Rabs 0.4001) = 1
  /\ length bits = Z.to_nat (bits_num self)
  /\ forall k, (k < Z.to_nat (bits_num self))%nat ->
       let arr_sum :=
         Np.sum (segment_chips signal
                   (Z.to_nat (sampling_frec self / bits_num self)) k) in
       (arr_sum > IZR (samp_per_bit self) / 2 -> nth k bits 0%Z = 1%Z)
       /\ (arr_sum <= IZR (samp_per_bit self) / 2 -> nth k bits 0%Z = 0%Z).
Proof.
  split; [|split; [|split]].
  - intros x Hx. apply chip_cases. lra.
  - intros x Hx. now apply chip_cases.
  - apply chip_cases. rewrite Rabs_right; lra.
  - destruct (demodulation_returns self signal bits Hret)
      as (Hfs & Hbn & Hdiv & Hlen).
    destruct (demodulation_bits self signal Hfs Hbn Hdiv Hlen)
      as (bits' & Hok & Hlb & Hnth).
    assert (bits' = bits) by congruence. subst bits'.
    split; [assumption|].
    intros k Hk arr_sum. rewrite (Hnth k Hk). unfold decide_bit.
    fold arr_sum.
    destruct (Rgt_dec arr_sum (IZR (samp_per_bit self) / 2));
      split; intros; auto; lra.
Qed.

Example demodulation_tiny :
  demodulation tiny [0.4; -0.4; 0.4001; -0.5] = Ok [0%Z; 1%Z].
Proof.
  np_eval. settle_comparisons. reflexivity.
Qed.

Lemma demodulation_threshold_and_vote_witness :
  demodulation tiny [0.4; -0.4; 0.4001; -0.5] = Ok [0%Z; 1%Z]
  /\ chip (Rabs 0.4001) = 1
  /\ length [0%Z; 1%Z] = Z.to_nat (bits_num tiny).
Proof.
  split; [exact demodulation_tiny|].
  destruct (demodulation_threshold_and_vote tiny [0.4; -0.4; 0.4001; -0.5]
              [0%Z; 1%Z] demodulation_tiny) as (_ & _ & Hchip & Hlen & _).
  split; assumption.
Defined.

(** ** Bit error rate *)

Lemma broadcast_same_length {A B C} (f : A -> B -> C) xs ys :
  length xs = length ys -> Np.broadcast f xs ys = Ok (Np.zip_with f xs ys).
Proof.
  intros H. unfold Np.broadcast. now rewrite H, Nat.eqb_refl.
Qed.

Lemma count_true_not_equal (xs ys : list Z) :
  Np.count_true (Np.zip_with (fun x y => negb (x =? y)%Z) xs ys)
  = differing xs ys.
Proof.
  revert ys; induction xs as [|x xs IH]; intros [|y ys]; try reflexivity.
  cbn [Np.zip_with differing]. unfold Np.count_true in *. cbn [fold_right].
  rewrite IH. destruct (x =? y)%Z; cbn [negb]; lia.
Qed.

Lemma differing_bounds (xs ys : list Z) :
  (0 <= differing xs ys <= Z.of_nat (length xs))%Z.
Proof.
  revert ys; induction xs as [|x xs IH]; intros [|y ys]; simpl length;
    cbn [differing]; try lia.
  specialize (IH ys). destruct (x =? y)%Z; lia.
Qed.

Lemma calculateBER_same_length (self : ASK) (original received : list Z) :
  length original = length received ->
  calculateBER self original received
  = Ok (IZR (differing original received) / IZR (bits_num self)).
Proof.
  intros H. unfold calculateBER, Np.not_equal.
  rewrite broadcast_same_length by assumption. cbn [rbind call].
  now rewrite count_true_not_equal.
Qed.

(** C3, as the code has it: on two sequences of equal length and with a
    positive bit count, [calculateBER] returns the number of differing
    positions divided by the bit count.  The quotient is never negative
    and, when the sequences have at most [bits_num] entries (the messages
    of the pipeline have exactly that many), at most 1; longer sequences
    can give more.  With a bit count of 5, [[1;0;1;1;0]] against
    [[1;1;1;0;0]] gives 2/5 = 0.4. *)
Theorem calculateBER_ratio (self : ASK) (original received : list Z)
  (Hlen : length original = length received)
  (Hbn : (0 < bits_num self)%Z) :
  let ber := IZR (differing original received) / IZR (bits_num self) in
  calculateBER self original received = Ok ber
  /\ 0 <= ber
  /\ ((Z.of_nat (length original) <= bits_num self)%Z -> ber <= 1)
  /\ (forall five : ASK,
        bits_num five = 5%Z ->
        calculateBER five [1; 0; 1; 1; 0]%Z [1; 1; 1; 0; 0]%Z = Ok 0.4)
  /\ 2 / 5 = 0.4.
Proof.
  intros ber.
  pose proof (differing_bounds original received) as [Hlo Hhi].
  assert (Hpos : 0 < IZR (bits_num self)) by now apply IZR_lt.
  apply IZR_le in Hlo.
  split; [now apply calculateBER_same_length|].
  split; [|split; [|split]].
  - unfold ber. apply Rmult_le_pos; [assumption|].
    left. now apply Rinv_0_lt_compat.
  - intros Hn. unfold ber.
    apply Rmult_le_reg_r with (r := IZR (bits_num self)); [assumption|].
    unfold Rdiv. rewrite Rmult_assoc, Rinv_l by lra.
    rewrite Rmult_1_r, Rmult_1_l. apply IZR_le. lia.
  - intros five H5. rewrite calculateBER_same_length by reflexivity.
    rewrite H5. f_equal.
    change (differing [1; 0; 1; 1; 0]%Z [1; 1; 1; 0; 0]%Z) with 2%Z. lra.
  - lra.
Qed.

Lemma calculateBER_ratio_witness :
  calculateBER tiny [1; 0]%Z [0; 0]%Z = Ok (IZR 1 / IZR 2).
Proof.
  apply (calculateBER_ratio tiny [1; 0]%Z [0; 0]%Z); [reflexivity|cbn; lia].
Defined.

(** Three bits against a bit count of 2: all three differ, and the rate
    returned is 3/2, above 1. *)
Lemma calculateBER_above_one_counterexample :
  length [1; 1; 1]%Z = length [0; 0; 0]%Z
  /\ (0 < bits_num tiny)%Z
  /\ calculateBER tiny [1; 1; 1]%Z [0; 0; 0]%Z = Ok (3 / 2)
  /\ ~ (0 <= 3 / 2 <= 1).
Proof.
  split; [reflexivity|]. split; [cbn; lia|]. split.
  - rewrite calculateBER_same_length by reflexivity. reflexivity.
  - lra.
Qed.


(** ** Construction, continued *)

Lemma arange_length (n : Z) : length (Np.arange n) = Z.to_nat n.
Proof. unfold Np.arange. now rewrite length_map, length_seq. Qed.

Lemma set_last_length (v : R) (y : list R) :
  y <> [] -> length (Np.set_last v y) = length y.
Proof.
  intros H. unfold Np.set_last.
  rewrite length_app, removelast_firstn_len, length_firstn. simpl.
  destruct y; [congruence|simpl; lia].
Qed.

Lemma linspace_length (start stop : R) (num : Z) (t : list R) :
  Np.linspace start stop num = Ok t -> length t = Z.to_nat num.
Proof.
  unfold Np.linspace. destruct (Z.ltb_spec num 0) as [|Hnum]; [discriminate|].
  intros H; inversion H; subst; clear H.
  set (y := map (fun v => v + start) _).
  assert (Hy : length y = Z.to_nat num).
  { unfold y. rewrite length_map.
    destruct (0 <? num - 1)%Z; now rewrite !length_map, arange_length. }
  destruct (Z.ltb_spec 1 num); [|assumption].
  rewrite set_last_length; [assumption|].
  intros E. rewrite E in Hy. simpl in Hy. lia.
Qed.

Lemma init_well_formed (fs fc bn : Z) (nz : R) :
  (0 <= fs)%Z -> (0 < bn)%Z ->
  exists self,
    __init__ fs fc bn nz = Ok self /\ well_formed self
    /\ sampling_frec self = fs /\ carry_frec self = fc
    /\ bits_num self = bn /\ noise self = nz.
Proof.
  intros Hfs Hbn. destruct (linspace_ok 0 1 fs Hfs) as [t Ht].
  exists (Build_ASK fs fc bn nz t (Z.quot fs bn)).
  split.
  - unfold __init__, int_truediv. rewrite Ht. cbn [rbind].
    destruct (Z.eqb_spec bn 0); [lia|]. reflexivity.
  - unfold well_formed; cbn. repeat split; try lia; auto.
    + now apply linspace_length in Ht.
    + apply Z.quot_div_nonneg; lia.
Qed.

Lemma init_inv (fs fc bn : Z) (nz : R) (self : ASK) :
  __init__ fs fc bn nz = Ok self ->
  sampling_frec self = fs /\ carry_frec self = fc /\ bits_num self = bn
  /\ noise self = nz /\ Np.linspace 0 1 fs = Ok (time self)
  /\ bn <> 0%Z /\ samp_per_bit self = Z.quot fs bn.
Proof.
  unfold __init__, int_truediv.
  destruct (Np.linspace 0 1 fs) as [t|]; [|discriminate]. cbn [rbind].
  destruct (Z.eqb_spec bn 0); [discriminate|]. cbn.
  intros H; inversion H; subst; cbn. auto 10.
Qed.

(** The small instances are what [__init__] builds. *)
Example init_tiny : __init__ 4 1 2 0 = Ok tiny.
Proof.
  np_eval. unfold tiny. do 2 f_equal. repeat (f_equal; try lra).
Qed.

Example init_uneven : __init__ 5 1 2 0 = Ok uneven.
Proof.
  np_eval. unfold uneven. do 2 f_equal. repeat (f_equal; try lra).
Qed.

Lemma well_formed_set_noise (self : ASK) (v : R) :
  well_formed self -> well_formed (set_noise self v).
Proof. unfold well_formed, set_noise; cbn. auto. Qed.

Lemma generateCarryWave_length (self : ASK) :
  length (generateCarryWave self) = length (time self).
Proof. unfold generateCarryWave. now rewrite length_map. Qed.

(** ** Modulation *)

Lemma broadcast_mismatch {A B C} (f : A -> B -> C) xs ys :
  length xs <> length ys -> length xs <> 1%nat -> length ys <> 1%nat ->
  Np.broadcast f xs ys = Raise [] ValueError.
Proof.
  intros Hne Hx Hy. unfold Np.broadcast.
  destruct (Nat.eqb_spec (length xs) (length ys)); [contradiction|].
  destruct xs as [|x [|x' xs]]; destruct ys as [|y [|y' ys]];
    simpl in *; try reflexivity; lia.
Qed.

Lemma repeat_ok {A} (a : list A) (k : Z) :
  (0 <= k)%Z ->
  Np.repeat a k = Ok (flat_map (fun x => List.repeat x (Z.to_nat k)) a).
Proof.
  intros H. unfold Np.repeat. destruct (Z.ltb_spec k 0); [lia|reflexivity].
Qed.

Lemma modulation_ok (self : ASK) (message : list Z) (carry_wave : list R) :
  (0 <= samp_per_bit self)%Z ->
  (length carry_wave = length message * Z.to_nat (samp_per_bit self))%nat ->
  modulation self message carry_wave
  = Ok (Np.zip_with Rmult carry_wave
          (map IZR (flat_map (fun x => List.repeat x
                                         (Z.to_nat (samp_per_bit self)))
                      message))).
Proof.
  intros Hspb Hlen. unfold modulation. rewrite repeat_ok by assumption.
  cbn [rbind]. unfold Np.multiply.
  rewrite broadcast_same_length; [reflexivity|].
  now rewrite length_map, flat_map_repeat_length.
Qed.

(** When the bit count does not divide the sampling frequency the expanded
    message is shorter than the carrier wave. *)
Lemma inexact_partition (fs bn : Z) :
  (0 <= fs)%Z -> (0 < bn)%Z -> (fs mod bn <> 0)%Z ->
  (0 <= fs / bn /\ fs / bn * bn < fs /\ 1 < bn)%Z.
Proof.
  intros Hfs Hbn Hnd.
  pose proof (Z.div_mod fs bn ltac:(lia)).
  pose proof (Z.mod_pos_bound fs bn Hbn).
  assert (0 <= fs / bn)%Z by (apply Z.div_pos; lia).
  assert (bn <> 1)%Z by (intros ->; rewrite Z.mod_1_r in Hnd; lia).
  nia.
Qed.

Lemma modulation_inexact (self : ASK) (message : list Z) :
  well_formed self -> (1 < sampling_frec self)%Z ->
  (sampling_frec self mod bits_num self <> 0)%Z ->
  length message = Z.to_nat (bits_num self) ->
  exists cont_msg,
    Np.repeat message (samp_per_bit self) = Ok cont_msg
    /\ Z.of_nat (length cont_msg) = (samp_per_bit self * bits_num self)%Z
    /\ (samp_per_bit self * bits_num self < sampling_frec self)%Z
    /\ modulation self message (generateCarryWave self)
       = Raise [m_modulation] ValueError.
Proof.
  intros (_ & Hbn & Ht & Hspb) Hfs Hnd Hmsg.
  destruct (inexact_partition (sampling_frec self) (bits_num self))
    as (Hq & Hlt & Hbn1); try lia.
  eexists. split; [apply repeat_ok; lia|].
  assert (Hcont : Z.of_nat (length (flat_map (fun x : Z => List.repeat x
                     (Z.to_nat (samp_per_bit self))) message))
                  = (samp_per_bit self * bits_num self)%Z).
  { rewrite flat_map_repeat_length, Nat2Z.inj_mul, Z2Nat.id by lia. lia. }
  split; [exact Hcont|]. split; [lia|].
  unfold modulation. rewrite repeat_ok by lia. cbn [rbind].
  unfold Np.multiply. rewrite broadcast_mismatch; [reflexivity| | |];
    rewrite ?length_map, ?generateCarryWave_length, ?Ht; try lia.
  assert (samp_per_bit self * bits_num self <> 1)%Z.
  { rewrite Hspb.
    destruct (Z.eq_dec (sampling_frec self / bits_num self) 0) as [E|E];
      [rewrite E; lia | nia]. }
  lia.
Qed.

(** C6, as the code has it: when the sampling frequency (above 1) is not a
    multiple of the bit count, the expanded message has
    [samp_per_bit * bits_num] entries, fewer than the [sampling_frec]
    samples of the carrier wave, and [modulation] raises [ValueError]:
    arrays of different lengths are not multiplied up to the shorter one. *)
Theorem modulation_shape_mismatch (fs fc bn : Z) (nz : R) (message : list Z)
  (Hfs : (1 < fs)%Z) (Hbn : (0 < bn)%Z) (Hnd : (fs mod bn <> 0)%Z)
  (Hmsg : Z.of_nat (length message) = bn) :
  exists self cont_msg,
    __init__ fs fc bn nz = Ok self
    /\ length (generateCarryWave self) = Z.to_nat fs
    /\ Np.repeat message (samp_per_bit self) = Ok cont_msg
    /\ Z.of_nat (length cont_msg) = (samp_per_bit self * bn)%Z
    /\ (samp_per_bit self * bn < fs)%Z
    /\ modulation self message (generateCarryWave self)
       = Raise [m_modulation] ValueError.
Proof.
  destruct (init_well_formed fs fc bn nz) as
    (self & Hinit & Hwf & Efs & _ & Ebn & _); try lia.
  destruct (modulation_inexact self message Hwf)
    as (cont_msg & Hrep & Hlen & Hlt & Hraise);
    rewrite ?Efs, ?Ebn; try lia; try assumption.
  rewrite Efs, Ebn in *.
  exists self, cont_msg. repeat split; try assumption.
  destruct Hwf as (_ & _ & Ht & _).
  now rewrite generateCarryWave_length, Ht, Efs.
Qed.

Lemma modulation_shape_mismatch_witness :
  exists self cont_msg,
    __init__ 10 1 3 0 = Ok self
    /\ length (generateCarryWave self) = Z.to_nat 10
    /\ Np.repeat [1; 0; 1]%Z (samp_per_bit self) = Ok cont_msg
    /\ Z.of_nat (length cont_msg) = (samp_per_bit self * 3)%Z
    /\ (samp_per_bit self * 3 < 10)%Z
    /\ modulation self [1; 0; 1]%Z (generateCarryWave self)
       = Raise [m_modulation] ValueError.
Proof.
  apply (modulation_shape_mismatch 10 1 3 0 [1; 0; 1]%Z);
    [lia | lia | vm_compute; discriminate | reflexivity].
Defined.

(** Ten samples for three bits: the expanded message has nine entries, the
    carrier wave ten, and no signal is produced. *)
Lemma modulation_truncation_counterexample :
  exists self,
    __init__ 10 1 3 0 = Ok self
    /\ (10 mod 3 <> 0)%Z
    /\ ~ (exists signal,
            modulation self [1; 0; 1]%Z (generateCarryWave self) = Ok signal
            /\ Z.of_nat (length signal) = (samp_per_bit self * 3)%Z).
Proof.
  eexists. split; [np_eval; reflexivity|].
  split; [vm_compute; discriminate|].
  intros (signal & H & _). revert H. np_eval. discriminate.
Qed.

(** ** The methods with effects *)

Section EffectFacts.

Context {rng : Type}.
Variable next_bit : rng -> bool * rng.
Variable next_gauss : rng -> R * rng.
Variable str_float : R -> string.
Implicit Types (w : world rng) (self : ASK).

Lemma draw_length {A} (next : rng -> A * rng) (n : nat) (s : rng) :
  length (fst (draw next n s)) = n.
Proof.
  revert s; induction n as [|n IH]; intros s; simpl; auto.
  destruct (next s) as [x s']. specialize (IH s').
  destruct (draw next n s') as [xs s'']. simpl in *. now rewrite IH.
Qed.

Lemma generateSignal_ok self w :
  (0 <= bits_num self)%Z ->
  exists message s,
    generateSignal next_bit self w = (Ok message, set_random_state w s)
    /\ length message = Z.to_nat (bits_num self)
    /\ Forall (fun b => b = 0%Z \/ b = 1%Z) message.
Proof.
  intros H. unfold generateSignal, callM, randint2.
  destruct (Z.ltb_spec (bits_num self) 0) as [|_]; [lia|].
  pose proof (draw_length next_bit (Z.to_nat (bits_num self))
                (random_state w)) as Hlen.
  destruct (draw next_bit _ _) as [bs s]. simpl in Hlen.
  eexists _, s. split; [reflexivity|]. split; [now rewrite length_map|].
  apply Forall_forall. intros b Hb. apply in_map_iff in Hb.
  destruct Hb as ([|] & <- & _); auto.
Qed.

Lemma addNoise_ok self (signal : list R) w :
  0 <= noise self ->
  exists zs s,
    addNoise next_gauss self signal w
    = (Ok (Np.zip_with Rplus signal
             (map (fun z => 0 + noise self * z) zs)),
       set_random_state w s)
    /\ length zs = length signal.
Proof.
  intros H. unfold addNoise, callM, bind, normal.
  destruct (Rlt_dec (noise self) 0) as [|_]; [lra|].
  pose proof (draw_length next_gauss (length signal) (random_state w))
    as Hlen.
  destruct (draw next_gauss _ _) as [zs s]. simpl in Hlen.
  exists zs, s. split; [|assumption].
  unfold lift, Np.add. rewrite broadcast_same_length
    by now rewrite length_map.
  reflexivity.
Qed.

Lemma save_to_csv_ok self (float_data : R) (EbNodB : Z) w :
  output_dir w = true ->
  save_to_csv str_float self float_data EbNodB w
  = (Ok tt,
     Build_world (random_state w) (output_dir w)
       (bers_csv w
        ++ writerow ";" (csv_fields str_float self float_data EbNodB))
       (stdout w)).
Proof.
  intros H. unfold save_to_csv, callM, bind, open_bers_csv, write_bers_csv.
  destruct w as [s d c o]. cbn in *. subst d. reflexivity.
Qed.

Lemma exact_partition (fs bn : Z) :
  (0 <= fs)%Z -> (0 < bn)%Z -> (fs mod bn = 0)%Z ->
  (0 <= fs / bn)%Z
  /\ Z.to_nat fs = (Z.to_nat bn * Z.to_nat (fs / bn))%nat.
Proof.
  intros Hfs Hbn Hdiv.
  assert (0 <= fs / bn)%Z by (apply Z.div_pos; lia).
  split; [assumption|].
  rewrite <- Z2Nat.inj_mul by lia. f_equal.
  pose proof (Z.div_mod fs bn). lia.
Qed.

(** A run on a well-formed object whose bit count divides its sampling
    frequency, with a non-negative noise level and the output directory in
    place, goes through and appends the row of its bit error rate. *)
Lemma one_run_ok self (EbNodB : Z) w :
  well_formed self ->
  (sampling_frec self mod bits_num self = 0)%Z ->
  0 <= noise self -> output_dir w = true ->
  exists message received ber s,
    one_run next_bit next_gauss str_float self EbNodB w
    = (Ok tt,
       Build_world s (output_dir w)
         (bers_csv w ++ writerow ";" (csv_fields str_float self ber EbNodB))
         (stdout w))
    /\ length message = Z.to_nat (bits_num self)
    /\ length received = Z.to_nat (bits_num self)
    /\ calculateBER self message received = Ok ber.
Proof.
  intros (Hfs & Hbn & Ht & Hspb) Hdiv Hnz Hdir.
  destruct (exact_partition _ _ Hfs Hbn Hdiv) as [Hq Hprod].
  unfold one_run, callM. unfold bind at 1.
  destruct (generateSignal_ok self w) as (message & s1 & E1 & Hm & _);
    [lia|]. rewrite E1.
  unfold bind at 1, lift at 1.
  rewrite modulation_ok;
    [| lia | rewrite generateCarryWave_length, Ht, Hm, Hspb; exact Hprod].
  set (signal := Np.zip_with Rmult _ _).
  assert (Hsig : length signal = Z.to_nat (sampling_frec self)).
  { unfold signal.
    rewrite zip_with_length, length_map, flat_map_repeat_length,
      generateCarryWave_length, Ht, Hm, Hspb. lia. }
  unfold bind at 1.
  destruct (addNoise_ok self signal (set_random_state w s1) Hnz)
    as (zs & s2 & E2 & Hz). rewrite E2.
  set (noisy := Np.zip_with Rplus _ _).
  assert (Hnoisy : length noisy = Z.to_nat (sampling_frec self)).
  { unfold noisy. rewrite zip_with_length, length_map. lia. }
  unfold bind at 1, lift at 1.
  destruct (demodulation_bits self noisy Hfs Hbn Hdiv)
    as (received & E3 & Hr & _); [lia|]. rewrite E3.
  unfold bind at 1, lift at 1.
  rewrite calculateBER_same_length by congruence.
  rewrite save_to_csv_ok by assumption. cbn.
  exists message, received,
    (IZR (differing message received) / IZR (bits_num self)), s2.
  repeat split; try assumption.
  apply calculateBER_same_length; congruence.
Qed.

Lemma same_files_refl w : same_files w w.
Proof. unfold same_files; auto. Qed.

Lemma same_files_random w (s : rng) : same_files w (set_random_state w s).
Proof. unfold same_files, set_random_state; cbn; auto. Qed.

Lemma same_files_trans w1 w2 w3 :
  same_files w1 w2 -> same_files w2 w3 -> same_files w1 w3.
Proof.
  unfold same_files. intros (? & ? & ?) (? & ? & ?).
  repeat split; congruence.
Qed.

Lemma generateSignal_files self w r w' :
  generateSignal next_bit self w = (r, w') -> same_files w w'.
Proof.
  unfold generateSignal, callM, randint2.
  destruct (bits_num self <? 0)%Z.
  - intros H; inversion H; subst. apply same_files_refl.
  - destruct (draw next_bit _ _) as [bs s]. intros H; inversion H; subst.
    apply same_files_random.
Qed.

Lemma addNoise_files self signal w r w' :
  addNoise next_gauss self signal w = (r, w') -> same_files w w'.
Proof.
  unfold addNoise, callM, bind, normal, lift.
  destruct (Rlt_dec (noise self) 0).
  - intros H; inversion H; subst. apply same_files_refl.
  - destruct (draw next_gauss _ _) as [zs s].
    destruct (Np.add _ _); intros H; inversion H; subst;
      apply same_files_random.
Qed.

Lemma save_to_csv_inv self (float_data : R) (EbNodB : Z) w r w' :
  save_to_csv str_float self float_data EbNodB w = (r, w') ->
  match r with
  | Ok _ =>
      bers_csv w'
      = (bers_csv w
         ++ writerow ";" (csv_fields str_float self float_data EbNodB))%string
  | Raise _ _ => bers_csv w' = bers_csv w
  end
  /\ output_dir w' = output_dir w /\ stdout w' = stdout w
  /\ random_state w' = random_state w.
Proof.
  unfold save_to_csv, callM, bind, open_bers_csv, write_bers_csv.
  destruct (output_dir w) eqn:E; intros H; inversion H; subst; cbn; auto.
Qed.

(** What a run leaves behind, whatever its outcome: on return, one row
    more in the results table, holding the bit error rate of the message
    drawn against the message received; on an exception, the table as it
    was. *)
Lemma one_run_inv self (EbNodB : Z) w r w' :
  one_run next_bit next_gauss str_float self EbNodB w = (r, w') ->
  match r with
  | Ok _ =>
      exists message signal noisy received ber,
        modulation self message (generateCarryWave self) = Ok signal
        /\ demodulation self noisy = Ok received
        /\ calculateBER self message received = Ok ber
        /\ bers_csv w'
           = (bers_csv w
              ++ writerow ";" (csv_fields str_float self ber EbNodB))%string
  | Raise _ _ => bers_csv w' = bers_csv w
  end
  /\ output_dir w' = output_dir w /\ stdout w' = stdout w.
Proof.
  unfold one_run, callM. unfold bind at 1.
  destruct (generateSignal next_bit self w) as [[message|tb e] w1] eqn:E1;
    apply generateSignal_files in E1; destruct E1 as (D1 & C1 & S1).
  2:{ intros H; inversion H; subst. auto. }
  unfold bind at 1, lift at 1.
  destruct (modulation self message (generateCarryWave self))
    as [signal|tb e] eqn:E0.
  2:{ intros H; inversion H; subst. auto. }
  unfold bind at 1.
  destruct (addNoise next_gauss self signal w1) as [[noisy|tb e] w2] eqn:E2;
    apply addNoise_files in E2; destruct E2 as (D2 & C2 & S2).
  2:{ intros H; inversion H; subst. cbn. repeat split; congruence. }
  unfold bind at 1, lift at 1.
  destruct (demodulation self noisy) as [received|tb e] eqn:E3.
  2:{ intros H; inversion H; subst. cbn. repeat split; congruence. }
  unfold bind at 1, lift at 1.
  destruct (calculateBER self message received) as [ber|tb e] eqn:E4.
  2:{ intros H; inversion H; subst. cbn. repeat split; congruence. }
  destruct (save_to_csv str_float self ber EbNodB w2) as [r3 w3] eqn:E5.
  apply save_to_csv_inv in E5. destruct E5 as (C3 & D3 & S3 & _).
  intros H; inversion H; subst; clear H.
  destruct r3 as [u|tb e]; cbn [call].
  - split; [|split; congruence].
    exists message, signal, noisy, received, ber.
    repeat split; try assumption. congruence.
  - repeat split; congruence.
Qed.

End EffectFacts.

(** ** The results table *)

Lemma rint_error (x : R) : Rabs (IZR (Np.rint x) - x) <= 1 / 2.
Proof.
  unfold Np.rint. destruct (base_Int_part x) as [Hlo Hhi].
  set (f := Int_part x) in *.
  destruct (Rlt_dec (x - IZR f) (1 / 2)).
  - rewrite Rabs_left1; lra.
  - destruct (Rlt_dec (1 / 2) (x - IZR f)).
    + rewrite plus_IZR. rewrite Rabs_right; lra.
    + destruct (Z.even f).
      * rewrite Rabs_left1; lra.
      * rewrite plus_IZR. rewrite Rabs_right; lra.
Qed.

(** [np.round(x, 1)] has one decimal and is within 0.05 of [x]. *)
Lemma round1_spec (x : R) :
  (exists k : Z, Np.round1 x = IZR k / 10)
  /\ Rabs (Np.round1 x - x) <= 1 / 20.
Proof.
  unfold Np.round1. split; [eauto|].
  pose proof (rint_error (x * 10)) as H.
  replace (IZR (Np.rint (x * 10)) / 10 - x)
    with ((IZR (Np.rint (x * 10)) - x * 10) * / 10) by field.
  rewrite Rabs_mult, (Rabs_right (/ 10)) by lra. lra.
Qed.

Lemma string_app_assoc (x y z : string) :
  ((x ++ y) ++ z = x ++ y ++ z)%string.
Proof. induction x as [|c x IH]; simpl; [reflexivity|now rewrite IH]. Qed.

Lemma writerow_seven (d a b c e f g h : string) :
  writerow d [a; b; c; e; f; g; h]
  = (a ++ d ++ b ++ d ++ c ++ d ++ e ++ d ++ f ++ d ++ g ++ d ++ h
     ++ CRLF)%string.
Proof.
  unfold writerow. cbn [String.concat].
  now rewrite !string_app_assoc.
Qed.

(** The stages of a run that returns, each applied to what the stage
    before it gave: the message drawn, its modulation on the generated
    carrier, the noise added in the world the draw left, the demodulation
    of the noisy signal, the bit error rate of the message against what
    was received, and that rate saved. *)
Lemma one_run_steps {rng : Type} (next_bit : rng -> bool * rng)
  (next_gauss : rng -> R * rng) (str_float : R -> string)
  (self : ASK) (EbNodB : Z) (w : world rng) (u : unit) (w' : world rng) :
  one_run next_bit next_gauss str_float self EbNodB w = (Ok u, w') ->
  exists message signal noisy_signal received_signal ber w1 w2,
    generateSignal next_bit self w = (Ok message, w1)
    /\ modulation self message (generateCarryWave self) = Ok signal
    /\ addNoise next_gauss self signal w1 = (Ok noisy_signal, w2)
    /\ demodulation self noisy_signal = Ok received_signal
    /\ calculateBER self message received_signal = Ok ber
    /\ save_to_csv str_float self ber EbNodB w2 = (Ok tt, w').
Proof.
  unfold one_run, callM. unfold bind at 1.
  destruct (generateSignal next_bit self w) as [[message|tb e] w1] eqn:E1;
    [|discriminate].
  unfold bind at 1, lift at 1.
  destruct (modulation self message (generateCarryWave self))
    as [signal|tb e] eqn:E0; [|discriminate].
  unfold bind at 1.
  destruct (addNoise next_gauss self signal w1) as [[noisy|tb e] w2] eqn:E2;
    [|discriminate].
  unfold bind at 1, lift at 1.
  destruct (demodulation self noisy) as [received|tb e] eqn:E3;
    [|discriminate].
  unfold bind at 1, lift at 1.
  destruct (calculateBER self message received) as [ber|tb e] eqn:E4;
    [|discriminate].
  destruct (save_to_csv str_float self ber EbNodB w2) as [[[]|tb e] w3] eqn:E5;
    cbn [call]; intros H; inversion H; subst; clear H.
  exists message, signal, noisy, received, ber, w1, w2.
  repeat split; assumption.
Qed.

(** C5: a run that returns has appended exactly one row to the results
    table: the text before it is untouched, no header is written, and the
    row holds, separated by semicolons and in this order, the word ASK, the
    sampling frequency, the carrier frequency, the bit count, the noise
    level rounded to one decimal, the bit error rate and the label.  The
    bit error rate is that of this run: of the message drawn from the
    random source against the demodulation of its modulated signal with
    the noise drawn next.  Nothing else changes but the random source.
    A run that raises leaves the table as it was, and a run on a
    well-formed object with an exact partition, a non-negative noise level
    and the output directory in place does return. *)
Theorem one_run_appends_row {rng : Type} (next_bit : rng -> bool * rng)
  (next_gauss : rng -> R * rng) (str_float : R -> string)
  (self : ASK) (EbNodB : Z) (w : world rng) :
  (forall u w',
      one_run next_bit next_gauss str_float self EbNodB w = (Ok u, w') ->
      exists message signal noisy_signal received_signal ber w1 w2,
        generateSignal next_bit self w = (Ok message, w1)
        /\ modulation self message (generateCarryWave self) = Ok signal
        /\ addNoise next_gauss self signal w1 = (Ok noisy_signal, w2)
        /\ demodulation self noisy_signal = Ok received_signal
        /\ calculateBER self message received_signal = Ok ber
        /\ bers_csv w'
           = (bers_csv w
              ++ "ASK;" ++ str_int (sampling_frec self)
              ++ ";" ++ str_int (carry_frec self)
              ++ ";" ++ str_int (bits_num self)
              ++ ";" ++ str_float (Np.round1 (noise self))
              ++ ";" ++ str_float ber
              ++ ";" ++ str_int EbNodB ++ CRLF)%string
        /\ output_dir w' = output_dir w
        /\ stdout w' = stdout w
        /\ random_state w' = random_state w2)
  /\ (forall tb e w',
        one_run next_bit next_gauss str_float self EbNodB w
        = (Raise tb e, w') ->
        bers_csv w' = bers_csv w)
  /\ (well_formed self ->
      (sampling_frec self mod bits_num self = 0)%Z ->
      0 <= noise self -> output_dir w = true ->
      exists w',
        one_run next_bit next_gauss str_float self EbNodB w = (Ok tt, w'))
  /\ (exists k : Z, Np.round1 (noise self) = IZR k / 10)
  /\ Rabs (Np.round1 (noise self) - noise self) <= 1 / 20.
Proof.
  split; [|split; [|split]].
  - intros u w' H. apply one_run_steps in H.
    destruct H as (message & signal & noisy & received & ber & w1 & w2
                   & E1 & E0 & E2 & E3 & E4 & E5).
    exists message, signal, noisy, received, ber, w1, w2.
    pose proof (generateSignal_files _ _ _ _ _ E1) as (D1 & C1 & S1).
    pose proof (addNoise_files _ _ _ _ _ _ E2) as (D2 & C2 & S2).
    apply save_to_csv_inv in E5. destruct E5 as (C3 & D3 & S3 & R3).
    repeat split; try assumption; try congruence.
    rewrite C3, C2, C1. unfold csv_fields. rewrite writerow_seven.
    reflexivity.
  - intros tb e w' H. apply one_run_inv in H. tauto.
  - intros Hwf Hdiv Hnz Hdir.
    destruct (one_run_ok next_bit next_gauss str_float self EbNodB w
                Hwf Hdiv Hnz Hdir) as (? & ? & ? & ? & H & _).
    eauto.
  - apply round1_spec.
Qed.

Lemma one_run_appends_row_witness :
  exists w',
    one_run toy_bit toy_gauss toy_str tiny 7 toy_world = (Ok tt, w')
    /\ bers_csv w' = ("ASK;4;1;2;<float>;<float>;7" ++ CRLF)%string.
Proof.
  destruct (one_run_appends_row toy_bit toy_gauss toy_str tiny 7 toy_world)
    as (Hrow & _ & Hok & _).
  destruct Hok as [w' Hw'].
  - unfold well_formed; cbn; lia.
  - reflexivity.
  - cbn; lra.
  - reflexivity.
  - exists w'. split; [exact Hw'|].
    destruct (Hrow tt w' Hw')
      as (message & signal & noisy & received & ber & w1 & w2
          & _ & _ & _ & _ & _ & Hcsv & _).
    rewrite Hcsv. reflexivity.
Defined.

(** ** Inexact partitions *)

Lemma demodulation_inexact (self : ASK) (signal : list R) :
  well_formed self ->
  (sampling_frec self mod bits_num self <> 0)%Z ->
  demodulation self signal
  = Raise [m_demodulation]
      (if (length signal <? Z.to_nat (sampling_frec self))%nat
       then IndexError else ValueError).
Proof.
  intros (Hfs & Hbn & _ & _) Hnd. unfold demodulation, Np.zeros, Np.arange.
  destruct (Z.ltb_spec (sampling_frec self) 0) as [|_]; [lia|].
  cbn [rbind].
  destruct (Nat.ltb_spec (length signal) (Z.to_nat (sampling_frec self)))
    as [Hshort|Hlong].
  - rewrite threshold_loop_short;
      [reflexivity | now rewrite repeat_length | lia
      | unfold Np.absolute; now rewrite length_map].
  - rewrite threshold_loop_ok;
      [| now rewrite repeat_length
       | unfold Np.absolute; now rewrite length_map].
    cbn [rbind firstn skipn app]. fold (chips self signal).
    unfold Np.split. rewrite chips_length, Z2Nat.id by lia.
    destruct (Z.eqb_spec (bits_num self) 0) as [|_]; [lia|].
    destruct (Z.eqb_spec (sampling_frec self mod bits_num self) 0);
      [contradiction|reflexivity].
Qed.

(** C7, as the code has it: when the bit count does not divide the
    sampling frequency, demodulation raises on every signal, [IndexError]
    on one shorter than [sampling_frec] and otherwise the [ValueError] of
    the uneven split; a run then ends in an exception with nothing appended
    to the results table, which for a sampling frequency above 1 is the
    [ValueError] raised by [modulation]. *)
Theorem uneven_split_raises {rng : Type}
  (next_bit : rng -> bool * rng) (next_gauss : rng -> R * rng)
  (str_float : R -> string) (self : ASK) (signal : list R) (EbNodB : Z)
  (w : world rng)
  (Hwf : well_formed self)
  (Hnd : (sampling_frec self mod bits_num self <> 0)%Z) :
  ((length signal < Z.to_nat (sampling_frec self))%nat ->
   demodulation self signal = Raise [m_demodulation] IndexError)
  /\ ((Z.to_nat (sampling_frec self) <= length signal)%nat ->
      demodulation self signal = Raise [m_demodulation] ValueError)
  /\ exists tb e w',
       one_run next_bit next_gauss str_float self EbNodB w = (Raise tb e, w')
       /\ bers_csv w' = bers_csv w
       /\ ((1 < sampling_frec self)%Z ->
           tb = [m_one_run; m_modulation] /\ e = ValueError).
Proof.
  pose proof (demodulation_inexact self signal Hwf Hnd) as Hd.
  split; [|split].
  - intros H. rewrite Hd.
    now destruct (Nat.ltb_spec (length signal)
                    (Z.to_nat (sampling_frec self))); [|lia].
  - intros H. rewrite Hd.
    now destruct (Nat.ltb_spec (length signal)
                    (Z.to_nat (sampling_frec self))); [lia|].
  - destruct (one_run next_bit next_gauss str_float self EbNodB w)
      as [[u|tb e] w'] eqn:E.
    + apply one_run_inv in E.
      destruct E as ((_ & _ & noisy & received & _ & _ & Hdem & _) & _).
      rewrite (demodulation_inexact self noisy Hwf Hnd) in Hdem.
      discriminate.
    + exists tb, e, w'. split; [reflexivity|].
      pose proof (one_run_inv _ _ _ _ _ _ _ _ E) as (Hcsv & _).
      split; [exact Hcsv|]. intros Hfs.
      revert E. unfold one_run, callM. unfold bind at 1.
      destruct Hwf as (Hfs0 & Hbn & Ht & Hspb).
      destruct (generateSignal_ok next_bit self w)
        as (message & s1 & E1 & Hm & _); [lia|]. rewrite E1.
      unfold bind at 1, lift at 1.
      destruct (modulation_inexact self message) as (_ & _ & _ & _ & Hmod);
        try assumption; [unfold well_formed; auto|].
      rewrite Hmod. cbn [call]. intros E; inversion E; subst. auto.
Qed.

Lemma uneven_split_raises_witness :
  demodulation uneven [1; -1; 1; 0; 0] = Raise [m_demodulation] ValueError
  /\ exists tb e w',
       one_run toy_bit toy_gauss toy_str uneven 0 toy_world
       = (Raise tb e, w')
       /\ bers_csv w' = bers_csv toy_world
       /\ ((1 < sampling_frec uneven)%Z ->
           tb = [m_one_run; m_modulation] /\ e = ValueError).
Proof.
  assert (Hwf : well_formed uneven) by (unfold well_formed; cbn; lia).
  assert (Hnd : (sampling_frec uneven mod bits_num uneven <> 0)%Z)
    by (vm_compute; discriminate).
  destruct (uneven_split_raises toy_bit toy_gauss toy_str uneven
              [1; -1; 1; 0; 0] 0 toy_world Hwf Hnd) as (_ & Hlong & Hrun).
  split; [apply Hlong; cbn; lia | exact Hrun].
Defined.

(** Five samples for two bits, built by [__init__]: demodulating five
    samples raises, and so does a whole run. *)
Lemma uneven_split_counterexample :
  exists self,
    __init__ 5 1 2 0 = Ok self
    /\ (5 mod 2 <> 0)%Z
    /\ ~ (exists received, demodulation self [1; -1; 1; 0; 0] = Ok received)
    /\ ~ (exists w',
            one_run toy_bit toy_gauss toy_str self 0 toy_world = (Ok tt, w')).
Proof.
  eexists. split; [np_eval; reflexivity|].
  split; [vm_compute; discriminate|]. split.
  - intros (received & H). revert H. np_eval. discriminate.
  - intros (w' & H). revert H. np_eval. discriminate.
Qed.

(** ** A bit count of zero *)

(** C8, as the code has it: with a bit count of zero the division by zero
    is raised by [__init__], while computing [samp_per_bit]; nothing guards
    it and it reaches the caller, so that no run starts: the error rate is
    never computed, no random number is drawn and no row is written. *)
Theorem zero_bits_num_fails_in_init {rng : Type}
  (next_bit : rng -> bool * rng) (next_gauss : rng -> R * rng)
  (str_float : R -> string) (sampling_frec carry_frec : Z) (noise : R)
  (EbNodB : Z) (w : world rng)
  (Hfs : (0 <= sampling_frec)%Z) :
  new_one_run next_bit next_gauss str_float sampling_frec carry_frec 0 noise
    EbNodB w
  = (Raise [m_init] ZeroDivisionError, w).
Proof.
  unfold new_one_run. now rewrite init_divides_by_zero.
Qed.

Lemma zero_bits_num_fails_in_init_witness :
  (0 <= 1000)%Z
  /\ new_one_run toy_bit toy_gauss toy_str 1000 10 0 0 0 toy_world
     = (Raise [m_init] ZeroDivisionError, toy_world).
Proof.
  split; [lia|].
  apply (zero_bits_num_fails_in_init toy_bit toy_gauss toy_str). lia.
Defined.

(** With a bit count of zero the run does not fail in [calculateBER]. *)
Lemma zero_bits_num_not_in_calculateBER :
  ~ (exists tb w',
       new_one_run toy_bit toy_gauss toy_str 1000 10 0 0 0 toy_world
       = (Raise tb ZeroDivisionError, w')
       /\ In m_calculateBER tb).
Proof.
  intros (tb & w' & H & Hin). unfold new_one_run in H.
  rewrite init_divides_by_zero in H by lia.
  inversion H; subst. cbn in Hin. destruct Hin as [Hin|[]]. discriminate.
Qed.

(** ** The sweep *)

Lemma sweep_noise_pos (n : Z) : 0 < sweep_noise n.
Proof.
  unfold sweep_noise.
  assert (0 < Rpower 10 (IZR n / 10)) by (unfold Rpower; apply exp_pos).
  assert (0 < sqrt (2 * Rpower 10 (IZR n / 10))) by (apply sqrt_lt_R0; lra).
  apply Rmult_lt_0_compat; [|lra].
  apply Rdiv_lt_0_compat; lra.
Qed.

Lemma sweep_noise_0 : sweep_noise 0 = 2 / sqrt 2 /\ 2 / sqrt 2 = sqrt 2.
Proof.
  assert (Hs : sqrt 2 * sqrt 2 = 2) by (apply sqrt_sqrt; lra).
  assert (Hp : 0 < sqrt 2) by (apply sqrt_lt_R0; lra).
  split.
  - unfold sweep_noise. replace (0 / 10) with 0 by lra.
    rewrite Rpower_O by lra. rewrite Rmult_1_r. field. lra.
  - apply Rmult_eq_reg_r with (r := sqrt 2); [|lra].
    unfold Rdiv. rewrite Rmult_assoc, Rinv_l by lra. lra.
Qed.

Lemma set_noise_twice (self : ASK) (a b : R) :
  set_noise (set_noise self a) b = set_noise self b.
Proof. reflexivity. Qed.

Section SweepFacts.

Context {rng : Type}.
Variable next_bit : rng -> bool * rng.
Variable next_gauss : rng -> R * rng.
Variable str_float : R -> string.

(** The loop of [simulate] over any list of indices: the runs succeed one
    after the other, run [i] on the object whose noise level is that of
    index [ns[i]], starting in the world the previous run left. *)
Lemma simulate_loop_ok (ns : list Z) :
  forall (self : ASK) (w : world rng),
    well_formed self ->
    (sampling_frec self mod bits_num self = 0)%Z ->
    output_dir w = true ->
    exists ws : list (world rng),
      length ws = S (length ns)
      /\ nth 0 ws w = w
      /\ (forall i, (i < length ns)%nat ->
            one_run next_bit next_gauss str_float
              (set_noise self (sweep_noise (nth i ns 0%Z))) (nth i ns 0%Z)
              (nth i ws w)
            = (Ok tt, nth (S i) ws w))
      /\ simulate_loop next_bit next_gauss str_float self ns w
         = (Ok (fold_left (fun s n => set_noise s (sweep_noise n)) ns self),
            nth (length ns) ws w)
      /\ output_dir (nth (length ns) ws w) = true.
Proof.
  induction ns as [|n ns IH]; intros self w Hwf Hdiv Hdir.
  - exists [w]. cbn. repeat split; auto. intros i Hi. lia.
  - set (self1 := set_noise self (sweep_noise n)).
    assert (Hwf1 : well_formed self1) by now apply well_formed_set_noise.
    destruct (one_run_ok next_bit next_gauss str_float self1 n w Hwf1)
      as (message & received & ber & s & Hrun & _); auto.
    { cbn. left. apply sweep_noise_pos. }
    set (w1 := Build_world s _ _ _) in Hrun.
    destruct (IH self1 w1 Hwf1) as (ws & Hlen & H0 & Hruns & Hloop & Hd);
      auto.
    exists (w :: ws). cbn [length nth].
    split; [now rewrite Hlen|]. split; [reflexivity|].
    assert (Hdef : forall i, (i <= length ns)%nat -> nth i ws w = nth i ws w1)
      by (intros i Hi; apply nth_indep; lia).
    split; [|split].
    + intros [|i] Hi.
      * rewrite Hdef, H0 by lia. exact Hrun.
      * rewrite !Hdef by lia. rewrite <- (Hruns i) by lia.
        reflexivity.
    + cbn [simulate_loop fold_left]. unfold bind. fold self1.
      rewrite Hrun, Hloop. now rewrite Hdef by lia.
    + now rewrite Hdef by lia.
Qed.

(** Conversely, when the loop returns, every run has returned, in the
    order of the list, each starting in the world left by the one before. *)
Lemma simulate_loop_inv (ns : list Z) :
  forall (self self' : ASK) (w w' : world rng),
    simulate_loop next_bit next_gauss str_float self ns w = (Ok self', w') ->
    exists ws : list (world rng),
      length ws = S (length ns)
      /\ nth 0 ws w = w
      /\ nth (length ns) ws w = w'
      /\ self' = fold_left (fun s n => set_noise s (sweep_noise n)) ns self
      /\ forall i, (i < length ns)%nat ->
            one_run next_bit next_gauss str_float
              (set_noise self (sweep_noise (nth i ns 0%Z))) (nth i ns 0%Z)
              (nth i ws w)
            = (Ok tt, nth (S i) ws w).
Proof.
  induction ns as [|n ns IH]; intros self self' w w' H.
  - cbn in H. unfold ret in H. inversion H; subst.
    exists [w']. cbn. repeat split; auto. intros i Hi. lia.
  - cbn [simulate_loop] in H. unfold bind in H.
    set (self1 := set_noise self (sweep_noise n)) in *.
    destruct (one_run next_bit next_gauss str_float self1 n w)
      as [[[]|tb e] w1] eqn:Hrun; [|discriminate].
    destruct (IH self1 self' w1 w' H) as (ws & Hlen & H0 & Hend & Hself & Hruns).
    exists (w :: ws). cbn [length nth fold_left].
    assert (Hdef : forall i, (i <= length ns)%nat -> nth i ws w = nth i ws w1)
      by (intros i Hi; apply nth_indep; lia).
    split; [now rewrite Hlen|]. split; [reflexivity|].
    split; [now rewrite Hdef by lia|]. split; [exact Hself|].
    intros [|i] Hi.
    + rewrite Hdef, H0 by lia. exact Hrun.
    + rewrite !Hdef by lia. rewrite <- (Hruns i) by lia. reflexivity.
Qed.

End SweepFacts.

(** C4: a sweep that returns has made exactly 12 runs, for the indices 0 to
    11 in increasing order, each in the world left by the one before; run
    [n] was made with label [n] on the object whose noise level had been
    set to [(1 / sqrt (2 * 10^(n/10))) * 2], and appended one row to the
    results table.  The sweep then prints its notice and leaves the noise
    level of index 11.  It does return on a well-formed object with an
    exact partition when the output directory is in place.  For [n = 0]
    the noise level is [2 / sqrt 2 = sqrt 2]. *)
Theorem simulate_runs {rng : Type} (next_bit : rng -> bool * rng)
  (next_gauss : rng -> R * rng) (str_float : R -> string)
  (self : ASK) (w : world rng) :
  let level (n : Z) := 1 / sqrt (2 * Rpower 10 (IZR n / 10)) * 2 in
  (forall self' w',
      simulate next_bit next_gauss str_float self w = (Ok self', w') ->
      exists ws : list (world rng),
        length ws = 13%nat
        /\ nth 0 ws w = w
        /\ (forall n, (n < 12)%nat ->
              one_run next_bit next_gauss str_float
                (set_noise self (level (Z.of_nat n))) (Z.of_nat n)
                (nth n ws w)
              = (Ok tt, nth (S n) ws w)
              /\ exists ber,
                   bers_csv (nth (S n) ws w)
                   = (bers_csv (nth n ws w)
                      ++ writerow ";"
                           [ "ASK"; str_int (sampling_frec self);
                             str_int (carry_frec self);
                             str_int (bits_num self);
                             str_float (Np.round1 (level (Z.of_nat n)));
                             str_float ber; str_int (Z.of_nat n) ])%string)
        /\ self' = set_noise self (level 11%Z)
        /\ w' = printed "Koniec symulacji modulacji ASK" (nth 12 ws w))
  /\ (well_formed self ->
      (sampling_frec self mod bits_num self = 0)%Z ->
      output_dir w = true ->
      exists self' w',
        simulate next_bit next_gauss str_float self w = (Ok self', w'))
  /\ level 0%Z = 2 / sqrt 2 /\ 2 / sqrt 2 = sqrt 2.
Proof.
  intros level.
  assert (Hlevel : forall n, (n < 12)%nat ->
            level (Z.of_nat n) = sweep_noise (nth n (Np.arange 12) 0%Z)
            /\ nth n (Np.arange 12) 0%Z = Z.of_nat n).
  { intros n Hn. unfold level, sweep_noise.
    do 12 (destruct n as [|n]; [split; reflexivity|]). lia. }
  split; [|split].
  - intros self' w' H. unfold simulate, callM, bind in H.
    destruct (simulate_loop next_bit next_gauss str_float self
                (Np.arange 12) w) as [[self1|tb e] w1] eqn:Hloop;
      [|discriminate].
    cbn in H. inversion H; subst self' w'; clear H.
    destruct (simulate_loop_inv next_bit next_gauss str_float _ _ _ _ _ Hloop)
      as (ws & Hlen & H0 & Hend & Hself & Hruns).
    change (length (Np.arange 12)) with 12%nat in *.
    exists ws. split; [exact Hlen|]. split; [exact H0|].
    split; [|split].
    + intros n Hn. destruct (Hlevel n Hn) as [El En].
      specialize (Hruns n Hn). rewrite <- El, En in Hruns.
      split; [exact Hruns|].
      apply one_run_inv in Hruns.
      destruct Hruns as ((_ & _ & _ & _ & ber & _ & _ & _ & Hcsv) & _).
      exists ber. exact Hcsv.
    + rewrite Hself. reflexivity.
    + rewrite Hend. reflexivity.
  - intros Hwf Hdiv Hdir.
    destruct (simulate_loop_ok next_bit next_gauss str_float (Np.arange 12)
                self w Hwf Hdiv Hdir) as (ws & _ & _ & _ & Hloop & _).
    unfold simulate, callM, bind. rewrite Hloop. cbn. eauto.
  - pose proof sweep_noise_0 as [E0 E1]. split; [|exact E1].
    rewrite <- E0. reflexivity.
Qed.

Lemma simulate_runs_witness :
  exists self' w',
    simulate toy_bit toy_gauss toy_str tiny toy_world = (Ok self', w')
    /\ self' = set_noise tiny (1 / sqrt (2 * Rpower 10 (11 / 10)) * 2).
Proof.
  destruct (simulate_runs toy_bit toy_gauss toy_str tiny toy_world)
    as (Htrace & Hok & _).
  destruct Hok as (self' & w' & Hsim).
  - unfold well_formed; cbn; lia.
  - reflexivity.
  - reflexivity.
  - exists self', w'. split; [exact Hsim|].
    destruct (Htrace self' w' Hsim) as (ws & _ & _ & _ & Hself & _).
    exact Hself.
Defined.

(** ** The time grid and the carrier wave *)

Lemma removelast_nth {A} (l : list A) (i : nat) (d : A) :
  (S i < length l)%nat -> nth i (removelast l) d = nth i l d.
Proof.
  intros H. rewrite removelast_firstn_len, nth_firstn.
  destruct (Nat.ltb_spec i (pred (length l))); [reflexivity|lia].
Qed.

Lemma linspace_nth (num : Z) (t : list R) (i : nat) :
  (1 < num)%Z -> Np.linspace 0 1 num = Ok t -> (i < Z.to_nat num)%nat ->
  nth i t 0 = INR i / IZR (num - 1).
Proof.
  intros Hnum Ht Hi. unfold Np.linspace in Ht.
  destruct (Z.ltb_spec num 0) as [|_]; [lia|].
  destruct (Z.ltb_spec 0 (num - 1)) as [_|]; [|lia].
  destruct (Z.ltb_spec 1 num) as [_|]; [|lia].
  inversion Ht; subst t; clear Ht.
  unfold Np.arange. rewrite !map_map.
  set (g := fun x : nat => IZR (Z.of_nat x) * ((1 - 0) / IZR (num - 1)) + 0).
  assert (Hd : IZR (num - 1) <> 0) by (apply not_0_IZR; lia).
  assert (Hg : forall j, g j = INR j / IZR (num - 1)).
  { intros j. unfold g. rewrite <- INR_IZR_INZ. field. exact Hd. }
  assert (Hlen : length (map g (seq 0 (Z.to_nat num))) = Z.to_nat num)
    by now rewrite length_map, length_seq.
  unfold Np.set_last.
  destruct (Nat.eq_dec (S i) (Z.to_nat num)) as [Elast|Hnot].
  - rewrite app_nth2;
      rewrite removelast_firstn_len, length_firstn, Hlen; [|lia].
    replace (i - Nat.min (pred (Z.to_nat num)) (Z.to_nat num))%nat
      with 0%nat by lia.
    cbn [nth].
    assert (Ei : INR i = IZR (num - 1)).
    { rewrite INR_IZR_INZ. f_equal. lia. }
    rewrite Ei. field. exact Hd.
  - rewrite app_nth1
      by (rewrite removelast_firstn_len, length_firstn, Hlen; lia).
    rewrite removelast_nth by (rewrite Hlen; lia).
    rewrite nth_map_seq by lia. apply Hg.
Qed.

Lemma nth_map_in_range {A B} (f : A -> B) (l : list A) (i : nat)
  (dA : A) (dB : B) :
  (i < length l)%nat -> nth i (map f l) dB = f (nth i l dA).
Proof.
  intros H. rewrite (nth_indep _ dB (f dA)) by now rewrite length_map.
  apply map_nth.
Qed.

Lemma generateCarryWave_nth (self : ASK) (i : nat) :
  (i < length (time self))%nat ->
  nth i (generateCarryWave self) 0
  = sin (2 * PI * IZR (carry_frec self) * nth i (time self) 0).
Proof.
  intros H. unfold generateCarryWave.
  now rewrite (nth_map_in_range _ _ _ 0).
Qed.

(** ** The sine away from its zeros *)

Lemma abs_sin_add_PI (x : R) (k : nat) :
  Rabs (sin (x + INR k * PI)) = Rabs (sin x).
Proof.
  induction k as [|k IH].
  - simpl. now rewrite Rmult_0_l, Rplus_0_r.
  - rewrite S_INR.
    replace (x + (INR k + 1) * PI) with (x + INR k * PI + PI) by ring.
    now rewrite neg_sin, Rabs_Ropp.
Qed.

Lemma sin_ge_half (y : R) :
  PI / 6 <= y -> y <= 5 * (PI / 6) -> 1 / 2 <= sin y.
Proof.
  intros Hlo Hhi. pose proof PI_RGT_0 as Hpi.
  rewrite <- sin_PI6.
  destruct (Rle_dec y (PI / 2)) as [Hy|Hy].
  - apply sin_incr_1; lra.
  - rewrite <- (sin_PI_x y). apply sin_incr_1; lra.
Qed.

Lemma strong_sample_carrier (i : nat) :
  strong_sample i = true ->
  1 / 2 <= Rabs (sin (2 * PI * IZR 10 * (INR i / IZR (1000 - 1)))).
Proof.
  unfold strong_sample. intros H.
  apply andb_prop in H. destruct H as [Hlo Hhi].
  apply Z.leb_le in Hlo, Hhi.
  set (n := (20 * Z.of_nat i)%Z) in *.
  pose proof (Z.div_mod n 999 ltac:(lia)) as Hn.
  assert (Hq : (0 <= n / 999)%Z) by (apply Z.div_pos; lia).
  set (q := (n / 999)%Z) in *. set (r := (n mod 999)%Z) in *.
  assert (Earg : 2 * PI * IZR 10 * (INR i / IZR (1000 - 1))
                 = PI * (IZR r / 999) + INR (Z.to_nat q) * PI).
  { rewrite (INR_IZR_INZ (Z.to_nat q)), Z2Nat.id by exact Hq.
    assert (E : 20 * INR i = 999 * IZR q + IZR r).
    { rewrite INR_IZR_INZ, <- !mult_IZR, <- plus_IZR. f_equal. exact Hn. }
    change (1000 - 1)%Z with 999%Z.
    replace (2 * PI * 10 * (INR i / 999))
      with (PI * ((20 * INR i) / 999)) by field.
    rewrite E. field. }
  rewrite Earg, abs_sin_add_PI.
  apply IZR_le in Hlo, Hhi. pose proof PI_RGT_0 as Hpi.
  assert (Hs : 1 / 2 <= sin (PI * (IZR r / 999))).
  { apply sin_ge_half; nra. }
  rewrite Rabs_right; lra.
Qed.

Lemma strong_count_enough (k : nat) :
  (k < 10)%nat -> (51 <= strong_count k)%nat.
Proof.
  intros Hk.
  assert (H : forallb (fun k => (51 <=? strong_count k)%nat) (seq 0 10)
              = true) by (vm_compute; reflexivity).
  rewrite forallb_forall in H. apply Nat.leb_le, H, in_seq. lia.
Qed.

(** ** The noise-free round trip *)

Lemma chip_range (x : R) : 0 <= chip x <= 1.
Proof. unfold chip. destruct (Rgt_dec x 0.4); lra. Qed.

Lemma sum_zeros (l : list nat) : Np.sum (map (fun _ => 0) l) = 0.
Proof. induction l as [|j l IH]; simpl; [reflexivity|lra]. Qed.

(** A sum of chips is at least the number of indices known to give 1. *)
Lemma sum_chips_lower (f : nat -> R) (g : nat -> bool) (l : list nat) :
  (forall j, In j l -> 0 <= f j /\ (g j = true -> f j = 1)) ->
  INR (length (filter g l)) <= Np.sum (map f l).
Proof.
  induction l as [|j l IH]; intros H.
  - simpl. lra.
  - assert (Hl : INR (length (filter g l)) <= Np.sum (map f l))
      by (apply IH; intros; apply H; now right).
    destruct (H j (or_introl eq_refl)) as [H0 H1].
    cbn [filter map]. unfold Np.sum in *. cbn [fold_right].
    destruct (g j).
    + cbn [length]. rewrite S_INR, H1 by reflexivity. lra.
    + lra.
Qed.

Lemma differing_same (xs : list Z) : differing xs xs = 0%Z.
Proof.
  induction xs as [|x xs IH]; simpl; [reflexivity|].
  now rewrite Z.eqb_refl, IH.
Qed.

Lemma add_zero_noise (signal zs : list R) :
  length zs = length signal ->
  Np.zip_with Rplus signal (map (fun z => 0 + 0 * z) zs) = signal.
Proof.
  revert zs; induction signal as [|x signal IH]; intros [|z zs] H;
    simpl in *; try discriminate; try reflexivity.
  rewrite IH by lia. f_equal. ring.
Qed.

(** The samples sent for bit [k]: the carrier where the bit is 1, zero
    where it is 0. *)
Lemma modulation_nth (self : ASK) (message : list Z) (carry_wave : list R)
  (k j : nat) :
  (0 <= samp_per_bit self)%Z ->
  (length carry_wave = length message * Z.to_nat (samp_per_bit self))%nat ->
  (k < length message)%nat -> (j < Z.to_nat (samp_per_bit self))%nat ->
  exists signal,
    modulation self message carry_wave = Ok signal
    /\ length signal = length carry_wave
    /\ nth (k * Z.to_nat (samp_per_bit self) + j) signal 0
       = nth (k * Z.to_nat (samp_per_bit self) + j) carry_wave 0
         * IZR (nth k message 0%Z).
Proof.
  intros Hspb Hlen Hk Hj. eexists. split; [now apply modulation_ok|].
  set (n := Z.to_nat (samp_per_bit self)) in *.
  assert (Hc : length (map IZR (flat_map (fun x => List.repeat x n) message))
               = length carry_wave)
    by now rewrite length_map, flat_map_repeat_length.
  split; [rewrite zip_with_length, Hc; lia|].
  rewrite (zip_with_nth _ _ _ _ 0 0) by (rewrite ?Hc, Hlen; nia).
  f_equal.
  rewrite (nth_map_in_range _ _ _ 0%Z)
    by (rewrite flat_map_repeat_length; nia).
  f_equal. now apply flat_map_repeat_nth.
Qed.

(** The round trip only needs a carrier within 0.05 of the sine wave:
    the strong samples then still exceed the threshold 0.4, and they are
    the majority in every bit. *)
Lemma round_trip_within_tolerance (self : ASK) (carry_wave : list R)
  (message : list Z) :
  __init__ 1000 10 10 0 = Ok self ->
  length carry_wave = 1000%nat ->
  (forall i, (i < 1000)%nat ->
     Rabs (nth i carry_wave 0 - nth i (generateCarryWave self) 0) <= 1 / 20) ->
  length message = 10%nat ->
  Forall (fun b => b = 0%Z \/ b = 1%Z) message ->
  exists signal,
    modulation self message carry_wave = Ok signal
    /\ demodulation self signal = Ok message.
Proof.
  intros Hinit Hcw Hnear Hm Hbits.
  destruct (init_inv _ _ _ _ _ Hinit) as (Efs & Efc & Ebn & _ & Ht & _ & Espb).
  change (Z.quot 1000 10) with 100%Z in Espb.
  assert (Htl : length (time self) = 1000%nat)
    by (apply linspace_length in Ht; rewrite Ht; reflexivity).
  assert (H100 : Z.to_nat (samp_per_bit self) = 100%nat)
    by (rewrite Espb; reflexivity).
  assert (Hmod : modulation self message carry_wave
                 = Ok (Np.zip_with Rmult carry_wave
                         (map IZR (flat_map
                            (fun x => List.repeat x
                                        (Z.to_nat (samp_per_bit self)))
                            message))))
    by (apply modulation_ok; [lia | rewrite Hcw, Hm, H100; reflexivity]).
  eexists. split; [exact Hmod|].
  set (signal := Np.zip_with Rmult _ _) in *.
  assert (Hsig : forall k j, (k < 10)%nat -> (j < 100)%nat ->
            nth (k * 100 + j) signal 0
            = nth (k * 100 + j) carry_wave 0 * IZR (nth k message 0%Z)).
  { intros k j Hk Hj.
    destruct (modulation_nth self message carry_wave k j)
      as (signal' & Hmod' & _ & Hnth);
      rewrite ?H100, ?Hcw, ?Hm; try lia; try reflexivity.
    rewrite Hmod in Hmod'. inversion Hmod'; subst signal'.
    rewrite H100 in Hnth. exact Hnth. }
  assert (Hlen : length signal = 1000%nat).
  { unfold signal.
    rewrite zip_with_length, length_map, flat_map_repeat_length, Hcw, Hm,
      H100. reflexivity. }
  destruct (demodulation_bits self signal) as (bits & Hdem & Hlb & Hnth);
    rewrite ?Efs, ?Ebn, ?Hlen; try lia; try reflexivity.
  rewrite Hdem. f_equal.
  rewrite Efs, Ebn in Hnth.
  change (Z.to_nat (1000 / 10)) with 100%nat in Hnth.
  rewrite Ebn in Hlb. change (Z.to_nat 10) with 10%nat in Hlb, Hnth.
  apply nth_ext with (d := 0%Z) (d' := 0%Z); [congruence|].
  intros k Hk. rewrite Hlb in Hk. rewrite (Hnth k Hk).
  unfold decide_bit, segment_chips. rewrite Espb.
  assert (Hb : nth k message 0%Z = 0%Z \/ nth k message 0%Z = 1%Z).
  { rewrite Forall_forall in Hbits. apply Hbits, nth_In. lia. }
  destruct Hb as [Hb|Hb]; rewrite Hb.
  - (* a zero bit: every chip of the segment is 0 *)
    rewrite (map_ext_in _ (fun _ => 0)).
    + rewrite sum_zeros. destruct (Rgt_dec 0 (100 / 2)); [lra|reflexivity].
    + intros j Hj. apply in_seq in Hj.
      rewrite Hsig, Hb, Rmult_0_r, Rabs_R0 by lia.
      apply chip_cases. lra.
  - (* a one bit: the strong samples alone outvote the threshold *)
    pose proof (strong_count_enough k Hk) as Hcount.
    apply le_INR in Hcount. rewrite (INR_IZR_INZ 51) in Hcount.
    change (Z.of_nat 51) with 51%Z in Hcount.
    set (arr_sum := Np.sum _).
    destruct (Rgt_dec arr_sum (100 / 2)) as [|Hno]; [reflexivity|].
    exfalso. apply Hno.
    assert (INR (strong_count k) <= arr_sum); [|lra].
    unfold strong_count, arr_sum.
    apply (sum_chips_lower
             (fun j => chip (Rabs (nth (k * 100 + j) signal 0)))
             (fun j => strong_sample (k * 100 + j))).
    intros j Hj. apply in_seq in Hj.
    split; [apply chip_range|].
    intros Hstrong. apply chip_cases.
    rewrite Hsig, Hb, Rmult_1_r by lia.
    pose proof (Hnear (k * 100 + j)%nat ltac:(lia)) as Hclose.
    rewrite generateCarryWave_nth in Hclose by lia.
    rewrite Efc, (linspace_nth 1000 _ _ ltac:(lia) Ht) in Hclose
      by (change (Z.to_nat 1000) with 1000%nat; lia).
    pose proof (strong_sample_carrier _ Hstrong) as Hs.
    revert Hclose Hs. unfold Rabs.
    repeat destruct (Rcase_abs _); intros; lra.
Qed.

(** C1: for the simulator built with sampling frequency 1000, carrier
    frequency 10, bit count 10 and noise level 0, every message of 10 bits
    survives the round trip: modulating it with the generated carrier wave
    gives a signal, adding noise of level 0 leaves that signal as it is,
    and demodulating it returns the message, so that the bit error rate
    is 0. *)
Theorem noise_free_round_trip {rng : Type} (next_gauss : rng -> R * rng)
  (message : list Z) (w : world rng)
  (Hlen : length message = 10%nat)
  (Hbits : Forall (fun b => b = 0%Z \/ b = 1%Z) message) :
  exists self signal,
    __init__ 1000 10 10 0 = Ok self
    /\ modulation self message (generateCarryWave self) = Ok signal
    /\ fst (addNoise next_gauss self signal w) = Ok signal
    /\ demodulation self signal = Ok message
    /\ calculateBER self message message = Ok 0.
Proof.
  destruct (init_well_formed 1000 10 10 0) as
    (self & Hinit & (_ & _ & Ht & _) & Efs & _ & Ebn & Enz); try lia.
  rewrite Efs in Ht. change (Z.to_nat 1000) with 1000%nat in Ht.
  destruct (round_trip_within_tolerance self (generateCarryWave self) message)
    as (signal & Hmod & Hdem); try assumption.
  { now rewrite generateCarryWave_length. }
  { intros i _. rewrite Rminus_diag, Rabs_R0. lra. }
  exists self, signal. split; [exact Hinit|]. split; [exact Hmod|].
  split; [|split; [exact Hdem|]].
  - destruct (addNoise_ok next_gauss self signal w) as (zs & s & E & Hz);
      [rewrite Enz; lra|].
    rewrite E, Enz. cbn [fst]. f_equal. now apply add_zero_noise.
  - rewrite calculateBER_same_length by reflexivity.
    rewrite differing_same, Ebn. f_equal. lra.
Qed.

Lemma noise_free_round_trip_witness :
  exists self signal,
    __init__ 1000 10 10 0 = Ok self
    /\ modulation self [1; 0; 1; 1; 0; 0; 1; 0; 1; 1]%Z
         (generateCarryWave self) = Ok signal
    /\ demodulation self signal = Ok [1; 0; 1; 1; 0; 0; 1; 0; 1; 1]%Z.
Proof.
  destruct (noise_free_round_trip toy_gauss
              [1; 0; 1; 1; 0; 0; 1; 0; 1; 1]%Z toy_world)
    as (self & signal & Hinit & Hmod & _ & Hdem & _).
  - reflexivity.
  - repeat (apply Forall_cons;
            [first [left; reflexivity | right; reflexivity]|]).
    apply Forall_nil.
  - exists self, signal. auto.
Defined.

(** * Further properties of the simulator *)

(** ** Construction and the time grid *)

(** [__init__] validates nothing itself: the only failures are those of
    [np.linspace] on a negative sampling frequency, which comes first, and
    of the division on a zero bit count.  Otherwise the object holds one
    instant per sample and the bit length truncated towards zero, so that
    for positive arguments up to [bits_num - 1] samples are left over. *)
Theorem init_outcomes (fs fc bn : Z) (nz : R) :
  ((fs < 0)%Z -> __init__ fs fc bn nz = Raise [m_init] ValueError)
  /\ ((0 <= fs)%Z -> bn <> 0%Z ->
      exists t,
        length t = Z.to_nat fs
        /\ __init__ fs fc bn nz = Ok (Build_ASK fs fc bn nz t (Z.quot fs bn)))
  /\ ((0 <= fs)%Z -> (0 < bn)%Z ->
      (Z.quot fs bn * bn <= fs < (Z.quot fs bn + 1) * bn)%Z)
  /\ (forall self, __init__ fs fc bn nz = Ok self ->
        (0 <= fs)%Z /\ bn <> 0%Z).
Proof.
  split; [|split; [|split]].
  - intros H. unfold __init__, Np.linspace.
    destruct (Z.ltb_spec fs 0); [reflexivity|lia].
  - intros Hfs Hbn. destruct (linspace_ok 0 1 fs Hfs) as [t Ht].
    exists t. split; [now apply linspace_length in Ht|].
    unfold __init__, int_truediv. rewrite Ht. cbn [rbind].
    destruct (Z.eqb_spec bn 0); [contradiction|reflexivity].
  - intros Hfs Hbn. rewrite Z.quot_div_nonneg by lia.
    pose proof (Z.div_mod fs bn ltac:(lia)).
    pose proof (Z.mod_pos_bound fs bn Hbn). nia.
  - intros self H. apply init_inv in H.
    destruct H as (_ & _ & _ & _ & Ht & Hbn & _). split; [|exact Hbn].
    unfold Np.linspace in Ht.
    destruct (Z.ltb_spec fs 0); [discriminate|assumption].
Qed.

Lemma init_outcomes_witness :
  __init__ (-1) 10 0 0 = Raise [m_init] ValueError
  /\ (Z.quot 1000 3 * 3 <= 1000 < (Z.quot 1000 3 + 1) * 3)%Z.
Proof.
  destruct (init_outcomes (-1) 10 0 0) as (Hneg & _).
  destruct (init_outcomes 1000 10 3 0) as (_ & _ & Hq & _).
  split; [apply Hneg; lia | apply Hq; lia].
Defined.

(** The time grid of an object with more than one sample: instant [i] is
    [i / (sampling_frec - 1)], so the grid starts at 0, ends at 1, stays
    within [0, 1] and increases strictly. *)
Theorem time_grid (fs fc bn : Z) (nz : R) (self : ASK)
  (Hinit : __init__ fs fc bn nz = Ok self) (Hfs : (1 < fs)%Z) :
  length (time self) = Z.to_nat fs
  /\ nth 0 (time self) 0 = 0
  /\ nth (Z.to_nat fs - 1) (time self) 0 = 1
  /\ (forall i, (i < Z.to_nat fs)%nat ->
        nth i (time self) 0 = INR i / IZR (fs - 1)
        /\ 0 <= nth i (time self) 0 <= 1)
  /\ (forall i j, (i < j)%nat -> (j < Z.to_nat fs)%nat ->
        nth i (time self) 0 < nth j (time self) 0).
Proof.
  destruct (init_inv _ _ _ _ _ Hinit) as (_ & _ & _ & _ & Ht & _).
  assert (Hd : 0 < IZR (fs - 1)) by (apply IZR_lt; lia).
  assert (Hn : forall i, (i < Z.to_nat fs)%nat ->
            nth i (time self) 0 = INR i / IZR (fs - 1))
    by (intros i Hi; now apply linspace_nth).
  assert (Hlast : INR (Z.to_nat fs - 1) = IZR (fs - 1)).
  { rewrite INR_IZR_INZ. f_equal. lia. }
  split; [now apply linspace_length in Ht|].
  split; [rewrite Hn by lia; simpl; lra|].
  split; [rewrite Hn by lia; rewrite Hlast; field; lra|].
  split.
  - intros i Hi. split; [now apply Hn|]. rewrite Hn by assumption.
    assert (0 <= INR i) by apply pos_INR.
    assert (INR i <= IZR (fs - 1)).
    { rewrite <- Hlast. apply le_INR. lia. }
    split.
    + apply Rmult_le_pos; [assumption|]. left. now apply Rinv_0_lt_compat.
    + apply Rmult_le_reg_r with (r := IZR (fs - 1)); [assumption|].
      unfold Rdiv. rewrite Rmult_assoc, Rinv_l by lra. lra.
  - intros i j Hij Hj. rewrite !Hn by lia.
    apply Rmult_lt_compat_r; [now apply Rinv_0_lt_compat|].
    now apply lt_INR.
Qed.

Lemma time_grid_witness :
  nth 0 (time tiny) 0 = 0 /\ nth (Z.to_nat 4 - 1) (time tiny) 0 = 1.
Proof.
  destruct (time_grid 4 1 2 0 tiny init_tiny ltac:(lia))
    as (_ & H0 & H1 & _).
  split; assumption.
Defined.

(** ** The carrier wave *)



(** ** Drawing the message *)

(** [generateSignal] returns exactly [bits_num] values, each 0 or 1, and
    touches nothing but the random source; a negative bit count makes it
    raise [ValueError] before anything is drawn. *)
Theorem generateSignal_message {rng : Type} (next_bit : rng -> bool * rng)
  (self : ASK) (w : world rng) :
  ((0 <= bits_num self)%Z ->
   exists message w',
     generateSignal next_bit self w = (Ok message, w')
     /\ length message = Z.to_nat (bits_num self)
     /\ Forall (fun b => b = 0%Z \/ b = 1%Z) message
     /\ same_files w w')
  /\ ((bits_num self < 0)%Z ->
      generateSignal next_bit self w
      = (Raise [m_generateSignal] ValueError, w)).
Proof.
  split.
  - intros H.
    destruct (generateSignal_ok next_bit self w H)
      as (message & s & E & Hlen & Hbits).
    exists message, (set_random_state w s).
    repeat split; try assumption; reflexivity.
  - intros H. unfold generateSignal, callM, randint2.
    destruct (Z.ltb_spec (bits_num self) 0); [reflexivity|lia].
Qed.

Lemma generateSignal_message_witness :
  exists message w',
    generateSignal toy_bit tiny toy_world = (Ok message, w')
    /\ length message = 2%nat.
Proof.
  destruct (generateSignal_message toy_bit tiny toy_world) as (Hok & _).
  destruct Hok as (message & w' & E & Hlen & _); [cbn; lia|].
  exists message, w'. split; assumption.
Defined.

(** ** Keying the carrier *)

(** Where the carrier has [samp_per_bit] samples for each bit of the
    message, modulation keeps its length, switches the carrier off over
    the whole stretch of a 0 bit and passes it unchanged over the stretch
    of a 1 bit. *)
Theorem modulation_keys_carrier (self : ASK) (message : list Z)
  (carry_wave : list R)
  (Hspb : (0 <= samp_per_bit self)%Z)
  (Hlen : (length carry_wave
           = length message * Z.to_nat (samp_per_bit self))%nat) :
  exists signal,
    modulation self message carry_wave = Ok signal
    /\ length signal = length carry_wave
    /\ forall k j,
         (k < length message)%nat ->
         (j < Z.to_nat (samp_per_bit self))%nat ->
         let i := (k * Z.to_nat (samp_per_bit self) + j)%nat in
         (nth k message 0%Z = 0%Z -> nth i signal 0 = 0)
         /\ (nth k message 0%Z = 1%Z -> nth i signal 0 = nth i carry_wave 0).
Proof.
  eexists. split; [now apply modulation_ok|].
  set (n := Z.to_nat (samp_per_bit self)) in *.
  assert (Hc : length (map IZR (flat_map (fun x => List.repeat x n) message))
               = length carry_wave)
    by now rewrite length_map, flat_map_repeat_length.
  split; [rewrite zip_with_length, Hc; lia|].
  intros k j Hk Hj i.
  assert (Hi : nth i (Np.zip_with Rmult carry_wave
                        (map IZR (flat_map (fun x => List.repeat x n)
                                    message))) 0
               = nth i carry_wave 0 * IZR (nth k message 0%Z)).
  { rewrite (zip_with_nth _ _ _ _ 0 0) by (rewrite ?Hc, Hlen; unfold i; nia).
    f_equal.
    rewrite (nth_map_in_range _ _ _ 0%Z)
      by (rewrite flat_map_repeat_length; unfold i; nia).
    f_equal. now apply flat_map_repeat_nth. }
  rewrite Hi. split; intros ->; ring.
Qed.

Lemma modulation_keys_carrier_witness :
  exists signal,
    modulation tiny [0; 1]%Z [1; 2; 3; 4] = Ok signal
    /\ length signal = 4%nat.
Proof.
  destruct (modulation_keys_carrier tiny [0; 1]%Z [1; 2; 3; 4])
    as (signal & Hmod & Hlen & _); [cbn; lia | reflexivity |].
  exists signal. split; assumption.
Defined.

Example modulation_tiny :
  modulation tiny [0; 1]%Z [1; 2; 3; 4] = Ok [1 * 0; 2 * 0; 3 * 1; 4 * 1].
Proof. reflexivity. Qed.

(** ** The channel noise *)

(** [addNoise] keeps the length of the signal and touches nothing but the
    random source; with a noise level of 0 it returns the signal itself,
    whatever is drawn; a negative noise level makes it raise [ValueError]
    before anything is drawn. *)
Theorem addNoise_levels {rng : Type} (next_gauss : rng -> R * rng)
  (self : ASK) (signal : list R) (w : world rng) :
  (0 <= noise self ->
   exists noisy_signal w',
     addNoise next_gauss self signal w = (Ok noisy_signal, w')
     /\ length noisy_signal = length signal
     /\ same_files w w'
     /\ (noise self = 0 -> noisy_signal = signal))
  /\ (noise self < 0 ->
      addNoise next_gauss self signal w = (Raise [m_addNoise] ValueError, w)).
Proof.
  split.
  - intros H.
    destruct (addNoise_ok next_gauss self signal w H) as (zs & s & E & Hz).
    eexists _, (set_random_state w s). split; [exact E|].
    split; [rewrite zip_with_length, length_map; lia|].
    split; [apply same_files_random|].
    intros ->. now apply add_zero_noise.
  - intros H. unfold addNoise, callM, bind, normal.
    destruct (Rlt_dec (noise self) 0); [reflexivity|lra].
Qed.

Lemma addNoise_levels_witness :
  exists noisy_signal w',
    addNoise toy_gauss tiny [1; 2; 3; 4] toy_world = (Ok noisy_signal, w')
    /\ noisy_signal = [1; 2; 3; 4].
Proof.
  destruct (addNoise_levels toy_gauss tiny [1; 2; 3; 4] toy_world)
    as (Hok & _).
  destruct Hok as (noisy & w' & E & _ & _ & Hzero); [cbn; lra|].
  exists noisy, w'. split; [exact E|]. apply Hzero. reflexivity.
Defined.

(** ** Demodulation: what is read and what comes out *)

Lemma firstn_absolute (n : nat) (signal : list R) :
  firstn n (Np.absolute (firstn n signal)) = firstn n (Np.absolute signal).
Proof.
  unfold Np.absolute. rewrite <- !firstn_map, firstn_firstn.
  now rewrite Nat.min_id.
Qed.

(** Demodulation reads the first [sampling_frec] samples and nothing else:
    samples beyond them change nothing, and a signal with fewer samples
    makes it raise [IndexError], whatever the bit count. *)
Theorem demodulation_reads_prefix (self : ASK) (signal : list R) :
  ((Z.to_nat (sampling_frec self) <= length signal)%nat ->
   demodulation self signal
   = demodulation self (firstn (Z.to_nat (sampling_frec self)) signal))
  /\ ((length signal < Z.to_nat (sampling_frec self))%nat ->
      demodulation self signal = Raise [m_demodulation] IndexError).
Proof.
  split.
  - intros Hlen. unfold demodulation, Np.zeros, Np.arange.
    destruct (sampling_frec self <? 0)%Z; [reflexivity|]. cbn [rbind].
    rewrite !threshold_loop_ok;
      rewrite ?repeat_length; unfold Np.absolute;
      rewrite ?length_map, ?length_firstn; try lia.
    cbn [rbind firstn skipn app].
    fold (Np.absolute signal).
    fold (Np.absolute (firstn (Z.to_nat (sampling_frec self)) signal)).
    now rewrite firstn_absolute.
  - intros Hlen. unfold demodulation, Np.zeros, Np.arange.
    destruct (Z.ltb_spec (sampling_frec self) 0) as [|_]; [lia|].
    cbn [rbind].
    rewrite threshold_loop_short;
      [reflexivity | now rewrite repeat_length | lia
      | unfold Np.absolute; now rewrite length_map].
Qed.

Lemma demodulation_reads_prefix_witness :
  demodulation tiny [0.4; -0.4; 0.4001; -0.5; 7; 8]
  = demodulation tiny [0.4; -0.4; 0.4001; -0.5]
  /\ demodulation tiny [1; 1; 1] = Raise [m_demodulation] IndexError.
Proof.
  destruct (demodulation_reads_prefix tiny [0.4; -0.4; 0.4001; -0.5; 7; 8])
    as (Hlong & _).
  destruct (demodulation_reads_prefix tiny [1; 1; 1]) as (_ & Hshort).
  split; [apply Hlong; cbn; lia | apply Hshort; cbn; lia].
Defined.

Lemma sum_ones (l : list nat) : Np.sum (map (fun _ => 1) l) = INR (length l).
Proof.
  induction l as [|j l IH]; [reflexivity|].
  cbn [map length]. rewrite S_INR. unfold Np.sum in *. cbn [fold_right].
  rewrite IH. ring.
Qed.

(** Whatever demodulation returns is a sequence of 0s and 1s.  A signal
    that never exceeds the threshold decodes to all 0s, and one that
    exceeds it everywhere decodes to all 1s, provided [samp_per_bit] is
    not negative, respectively below twice the length of a segment. *)
Theorem demodulation_extremes (self : ASK) (signal : list R) (bits : list Z)
  (Hret : demodulation self signal = Ok bits) :
  Forall (fun b => b = 0%Z \/ b = 1%Z) bits
  /\ ((forall i, (i < Z.to_nat (sampling_frec self))%nat ->
         Rabs (nth i signal 0) <= 0.4) ->
      (0 <= samp_per_bit self)%Z ->
      bits = List.repeat 0%Z (Z.to_nat (bits_num self)))
  /\ ((forall i, (i < Z.to_nat (sampling_frec self))%nat ->
         Rabs (nth i signal 0) > 0.4) ->
      (samp_per_bit self < 2 * (sampling_frec self / bits_num self))%Z ->
      bits = List.repeat 1%Z (Z.to_nat (bits_num self))).
Proof.
  destruct (demodulation_returns self signal bits Hret)
    as (Hfs & Hbn & Hdiv & Hlen).
  destruct (demodulation_bits self signal Hfs Hbn Hdiv Hlen)
    as (bits' & Hok & Hlb & Hnth).
  assert (bits' = bits) by congruence. subst bits'.
  destruct (exact_partition _ _ Hfs Hbn Hdiv) as [Hq Hprod].
  set (each := Z.to_nat (sampling_frec self / bits_num self)) in *.
  set (n := Z.to_nat (bits_num self)) in *.
  assert (Hconst : forall v : Z,
            (forall k, (k < n)%nat -> nth k bits 0%Z = v) ->
            bits = List.repeat v n).
  { intros v Hv. apply nth_ext with (d := 0%Z) (d' := v).
    - now rewrite repeat_length.
    - intros k Hk. rewrite nth_repeat. apply Hv. lia. }
  split; [|split].
  - apply Forall_forall. intros b Hb.
    destruct (In_nth _ _ 0%Z Hb) as (k & Hk & <-).
    rewrite Hnth by lia. unfold decide_bit.
    destruct (Rgt_dec _ _); auto.
  - intros Hquiet Hspb. apply Hconst. intros k Hk.
    rewrite Hnth by assumption. unfold decide_bit, segment_chips.
    rewrite (map_ext_in _ (fun _ => 0)).
    + rewrite sum_zeros. apply IZR_le in Hspb.
      destruct (Rgt_dec 0 (IZR (samp_per_bit self) / 2)); [lra|reflexivity].
    + intros j Hj. apply in_seq in Hj. apply chip_cases.
      apply Hquiet. nia.
  - intros Hloud Hspb. apply Hconst. intros k Hk.
    rewrite Hnth by assumption. unfold decide_bit, segment_chips.
    rewrite (map_ext_in _ (fun _ => 1)).
    + rewrite sum_ones, length_seq.
      assert (IZR (samp_per_bit self) < 2 * INR each).
      { unfold each. rewrite INR_IZR_INZ, Z2Nat.id by lia.
        rewrite <- mult_IZR. now apply IZR_lt. }
      destruct (Rgt_dec (INR each) (IZR (samp_per_bit self) / 2));
        [reflexivity|lra].
    + intros j Hj. apply in_seq in Hj. apply chip_cases.
      apply Hloud. nia.
Qed.

Example demodulation_silence :
  demodulation tiny [0; 0.4; -0.4; 0.1] = Ok [0%Z; 0%Z].
Proof. np_eval. settle_comparisons. reflexivity. Qed.

Lemma demodulation_extremes_witness :
  Forall (fun b => b = 0%Z \/ b = 1%Z) [0%Z; 0%Z]
  /\ demodulation tiny [0; 0.4; -0.4; 0.1] = Ok [0%Z; 0%Z].
Proof.
  destruct (demodulation_extremes tiny [0; 0.4; -0.4; 0.1] [0%Z; 0%Z]
              demodulation_silence) as (Hbits & _).
  split; [exact Hbits | exact demodulation_silence].
Defined.

(** ** The round trip under bounded noise *)

(** For the simulator of 1000 samples and 10 bits, a received signal
    decodes to the message as soon as it stays at or below the threshold
    over the 0 bits and exceeds it on the strong samples of the 1 bits. *)
Lemma strong_votes_decode (self : ASK) (received : list R)
  (message : list Z) :
  __init__ 1000 10 10 0 = Ok self ->
  (1000 <= length received)%nat ->
  length message = 10%nat ->
  (forall k j, (k < 10)%nat -> (j < 100)%nat ->
     (nth k message 0%Z = 0%Z ->
      Rabs (nth (k * 100 + j) received 0) <= 0.4)
     /\ (nth k message 0%Z = 1%Z -> strong_sample (k * 100 + j) = true ->
         Rabs (nth (k * 100 + j) received 0) > 0.4)) ->
  Forall (fun b => b = 0%Z \/ b = 1%Z) message ->
  demodulation self received = Ok message.
Proof.
  intros Hinit Hlen Hm Hvotes Hbits.
  destruct (init_inv _ _ _ _ _ Hinit) as (Efs & _ & Ebn & _ & _ & _ & Espb).
  change (Z.quot 1000 10) with 100%Z in Espb.
  destruct (demodulation_bits self received) as (bits & Hdem & Hlb & Hnth);
    rewrite ?Efs, ?Ebn; try lia; try reflexivity.
  rewrite Hdem. f_equal.
  rewrite Efs, Ebn in Hnth.
  change (Z.to_nat (1000 / 10)) with 100%nat in Hnth.
  rewrite Ebn in Hlb. change (Z.to_nat 10) with 10%nat in Hlb, Hnth.
  apply nth_ext with (d := 0%Z) (d' := 0%Z); [congruence|].
  intros k Hk. rewrite Hlb in Hk. rewrite (Hnth k Hk).
  unfold decide_bit, segment_chips. rewrite Espb.
  assert (Hb : nth k message 0%Z = 0%Z \/ nth k message 0%Z = 1%Z).
  { rewrite Forall_forall in Hbits. apply Hbits, nth_In. lia. }
  destruct Hb as [Hb|Hb]; rewrite Hb.
  - rewrite (map_ext_in _ (fun _ => 0)).
    + rewrite sum_zeros. destruct (Rgt_dec 0 (100 / 2)); [lra|reflexivity].
    + intros j Hj. apply in_seq in Hj. apply chip_cases.
      apply (Hvotes k j); [lia|lia|exact Hb].
  - pose proof (strong_count_enough k Hk) as Hcount.
    apply le_INR in Hcount. rewrite (INR_IZR_INZ 51) in Hcount.
    change (Z.of_nat 51) with 51%Z in Hcount.
    set (arr_sum := Np.sum _).
    destruct (Rgt_dec arr_sum (100 / 2)) as [|Hno]; [reflexivity|].
    exfalso. apply Hno.
    assert (INR (strong_count k) <= arr_sum); [|lra].
    unfold strong_count, arr_sum.
    apply (sum_chips_lower
             (fun j => chip (Rabs (nth (k * 100 + j) received 0)))
             (fun j => strong_sample (k * 100 + j))).
    intros j Hj. apply in_seq in Hj.
    split; [apply chip_range|].
    intros Hstrong. apply chip_cases.
    apply (Hvotes k j); [lia|lia|exact Hb|exact Hstrong].
Qed.

(** For the simulator of 1000 samples, carrier frequency 10 and 10 bits,
    every message is recovered exactly from its modulated signal plus any
    noise of magnitude below 0.1 on every sample. *)
Theorem round_trip_bounded_noise (self : ASK) (message : list Z)
  (channel_noise : list R)
  (Hinit : __init__ 1000 10 10 0 = Ok self)
  (Hm : length message = 10%nat)
  (Hbits : Forall (fun b => b = 0%Z \/ b = 1%Z) message)
  (Hn : length channel_noise = 1000%nat)
  (Hsmall : forall i, (i < 1000)%nat -> Rabs (nth i channel_noise 0) < 0.1) :
  exists signal noisy_signal,
    modulation self message (generateCarryWave self) = Ok signal
    /\ Np.add signal channel_noise = Ok noisy_signal
    /\ demodulation self noisy_signal = Ok message.
Proof.
  destruct (init_inv _ _ _ _ _ Hinit) as (Efs & Efc & Ebn & _ & Ht & _ & Espb).
  change (Z.quot 1000 10) with 100%Z in Espb.
  assert (Htl : length (time self) = 1000%nat)
    by (apply linspace_length in Ht; rewrite Ht; reflexivity).
  assert (H100 : Z.to_nat (samp_per_bit self) = 100%nat)
    by (rewrite Espb; reflexivity).
  assert (Hmod : modulation self message (generateCarryWave self)
                 = Ok (Np.zip_with Rmult (generateCarryWave self)
                         (map IZR (flat_map
                            (fun x => List.repeat x
                                        (Z.to_nat (samp_per_bit self)))
                            message)))).
  { apply modulation_ok; [lia|].
    rewrite generateCarryWave_length, Htl, Hm, H100. reflexivity. }
  set (signal := Np.zip_with Rmult _ _) in *.
  assert (Hlen : length signal = 1000%nat).
  { unfold signal.
    rewrite zip_with_length, length_map, flat_map_repeat_length,
      generateCarryWave_length, Htl, Hm, H100. reflexivity. }
  assert (Hsig : forall k j, (k < 10)%nat -> (j < 100)%nat ->
            nth (k * 100 + j) signal 0
            = nth (k * 100 + j) (generateCarryWave self) 0
              * IZR (nth k message 0%Z)).
  { intros k j Hk Hj.
    destruct (modulation_nth self message (generateCarryWave self) k j)
      as (signal' & Hmod' & _ & Hnth);
      rewrite ?H100, ?generateCarryWave_length, ?Htl, ?Hm; try lia;
      try reflexivity.
    rewrite Hmod in Hmod'. inversion Hmod'; subst signal'.
    rewrite H100 in Hnth. exact Hnth. }
  exists signal, (Np.zip_with Rplus signal channel_noise).
  split; [exact Hmod|].
  split; [apply broadcast_same_length; congruence|].
  apply strong_votes_decode; try assumption.
  { rewrite zip_with_length, Hlen, Hn. reflexivity. }
  intros k j Hk Hj.
  rewrite (zip_with_nth _ _ _ _ 0 0) by lia.
  rewrite (Hsig k j Hk Hj).
  pose proof (Hsmall (k * 100 + j)%nat ltac:(lia)) as Hnz.
  split.
  - intros Hb. rewrite Hb, Rmult_0_r, Rplus_0_l. lra.
  - intros Hb Hstrong. rewrite Hb, Rmult_1_r.
    rewrite generateCarryWave_nth by lia.
    rewrite Efc, (linspace_nth 1000 _ _ ltac:(lia) Ht)
      by (change (Z.to_nat 1000) with 1000%nat; lia).
    pose proof (strong_sample_carrier _ Hstrong) as Hs.
    revert Hnz Hs. unfold Rabs.
    repeat destruct (Rcase_abs _); intros; lra.
Qed.

Lemma round_trip_bounded_noise_witness :
  exists self signal noisy_signal,
    __init__ 1000 10 10 0 = Ok self
    /\ modulation self [1; 0; 1; 1; 0; 0; 1; 0; 1; 1]%Z
         (generateCarryWave self) = Ok signal
    /\ Np.add signal (List.repeat 0.05 1000) = Ok noisy_signal
    /\ demodulation self noisy_signal
       = Ok [1; 0; 1; 1; 0; 0; 1; 0; 1; 1]%Z.
Proof.
  destruct (init_well_formed 1000 10 10 0) as (self & Hinit & _); try lia.
  destruct (round_trip_bounded_noise self
              [1; 0; 1; 1; 0; 0; 1; 0; 1; 1]%Z (List.repeat 0.05 1000) Hinit)
    as (signal & noisy & Hmod & Hadd & Hdem).
  - reflexivity.
  - repeat (apply Forall_cons;
            [first [left; reflexivity | right; reflexivity]|]).
    apply Forall_nil.
  - apply repeat_length.
  - intros i Hi. rewrite nth_repeat_lt by exact Hi.
    rewrite Rabs_right; lra.
  - exists self, signal, noisy. auto.
Defined.

(** ** The bit error rate as a distance *)

Lemma differing_sym (xs ys : list Z) : differing xs ys = differing ys xs.
Proof.
  revert ys; induction xs as [|x xs IH]; intros [|y ys]; try reflexivity.
  cbn [differing]. now rewrite IH, Z.eqb_sym.
Qed.

Lemma differing_zero (xs ys : list Z) :
  length xs = length ys -> differing xs ys = 0%Z -> xs = ys.
Proof.
  revert ys; induction xs as [|x xs IH]; intros [|y ys] Hlen H;
    try discriminate; try reflexivity.
  cbn [differing] in H. injection Hlen as Hlen.
  pose proof (differing_bounds xs ys) as [Hlo _].
  destruct (Z.eqb_spec x y) as [->|]; [|lia].
  f_equal. apply IH; [assumption|lia].
Qed.

(** On sequences of equal length and with a positive bit count, the bit
    error rate does not depend on which sequence is called the original,
    is a whole number of steps of [1 / bits_num], and is 0 exactly when
    the two sequences are the same. *)
Theorem calculateBER_distance (self : ASK) (xs ys : list Z)
  (Hlen : length xs = length ys) (Hbn : (0 < bits_num self)%Z) :
  exists ber,
    calculateBER self xs ys = Ok ber
    /\ calculateBER self ys xs = Ok ber
    /\ (ber = 0 <-> xs = ys)
    /\ exists errors : Z,
         (0 <= errors <= Z.of_nat (length xs))%Z
         /\ ber = IZR errors * (1 / IZR (bits_num self)).
Proof.
  assert (Hpos : 0 < IZR (bits_num self)) by now apply IZR_lt.
  exists (IZR (differing xs ys) / IZR (bits_num self)).
  split; [now apply calculateBER_same_length|].
  split; [rewrite (differing_sym xs ys);
          now apply calculateBER_same_length|].
  split.
  - split.
    + intros H. apply differing_zero; [assumption|].
      apply eq_IZR.
      apply Rmult_eq_reg_r with (r := / IZR (bits_num self));
        [|apply Rinv_neq_0_compat; lra].
      unfold Rdiv in H. rewrite H. ring.
    + intros ->. rewrite differing_same. unfold Rdiv. ring.
  - exists (differing xs ys). split; [apply differing_bounds|].
    unfold Rdiv. ring.
Qed.

Lemma calculateBER_distance_witness :
  exists ber,
    calculateBER tiny [1; 0]%Z [0; 0]%Z = Ok ber
    /\ calculateBER tiny [0; 0]%Z [1; 0]%Z = Ok ber.
Proof.
  destruct (calculateBER_distance tiny [1; 0]%Z [0; 0]%Z)
    as (ber & H1 & H2 & _); [reflexivity | cbn; lia |].
  exists ber. split; assumption.
Defined.

(** ** Configurations that [__init__] lets through *)

(** A negative bit count passes [__init__], but the object is of no use:
    a run stops at once in [generateSignal] with [ValueError], leaving the
    world as it was, and demodulation raises on every signal. *)
Theorem negative_bits_num_runs {rng : Type} (next_bit : rng -> bool * rng)
  (next_gauss : rng -> R * rng) (str_float : R -> string)
  (fs fc bn : Z) (nz : R) (EbNodB : Z) (w : world rng)
  (Hfs : (0 <= fs)%Z) (Hbn : (bn < 0)%Z) :
  exists self,
    __init__ fs fc bn nz = Ok self
    /\ one_run next_bit next_gauss str_float self EbNodB w
       = (Raise [m_one_run; m_generateSignal] ValueError, w)
    /\ forall signal,
         exists e, demodulation self signal = Raise [m_demodulation] e.
Proof.
  destruct (linspace_ok 0 1 fs Hfs) as [t Ht].
  exists (Build_ASK fs fc bn nz t (Z.quot fs bn)).
  split; [|split].
  - unfold __init__, int_truediv. rewrite Ht. cbn [rbind].
    destruct (Z.eqb_spec bn 0); [lia|reflexivity].
  - unfold one_run, callM, bind, generateSignal, callM, randint2.
    cbn [bits_num]. destruct (Z.ltb_spec bn 0); [reflexivity|lia].
  - intros signal. unfold demodulation, Np.zeros, Np.arange.
    cbn [sampling_frec bits_num].
    destruct (Z.ltb_spec fs 0) as [|_]; [lia|]. cbn [rbind].
    destruct (le_lt_dec (Z.to_nat fs) (length signal)) as [Hlong|Hshort].
    + rewrite threshold_loop_ok;
        [| now rewrite repeat_length
         | unfold Np.absolute; now rewrite length_map].
      cbn [rbind]. unfold Np.split.
      destruct (Z.eqb_spec bn 0); [lia|].
      destruct (negb _); [eexists; reflexivity|].
      destruct (Z.leb_spec bn 0); [eexists; reflexivity|lia].
    + rewrite threshold_loop_short;
        [eexists; reflexivity | now rewrite repeat_length | lia
        | unfold Np.absolute; now rewrite length_map].
Qed.

Lemma negative_bits_num_runs_witness :
  exists self,
    __init__ 4 1 (-2) 0 = Ok self
    /\ one_run toy_bit toy_gauss toy_str self 0 toy_world
       = (Raise [m_one_run; m_generateSignal] ValueError, toy_world).
Proof.
  destruct (negative_bits_num_runs toy_bit toy_gauss toy_str 4 1 (-2) 0 0
              toy_world) as (self & Hinit & Hrun & _); try lia.
  exists self. split; assumption.
Defined.

(** ** Runs, step by step *)

Section RunFacts.

Context {rng : Type}.
Variable next_bit : rng -> bool * rng.
Variable next_gauss : rng -> R * rng.
Variable str_float : R -> string.
Implicit Types (w : world rng) (self : ASK).

(** On a well-formed object with an exact partition and a non-negative
    noise level every stage up to the bit error rate goes through; what
    the run returns is what [save_to_csv] returns. *)
Lemma one_run_pipeline self (EbNodB : Z) w :
  well_formed self ->
  (sampling_frec self mod bits_num self = 0)%Z ->
  0 <= noise self ->
  exists message signal zs received s,
    Forall (fun b => b = 0%Z \/ b = 1%Z) message
    /\ length message = Z.to_nat (bits_num self)
    /\ modulation self message (generateCarryWave self) = Ok signal
    /\ length zs = length signal
    /\ demodulation self
         (Np.zip_with Rplus signal (map (fun z => 0 + noise self * z) zs))
       = Ok received
    /\ length received = Z.to_nat (bits_num self)
    /\ one_run next_bit next_gauss str_float self EbNodB w
       = (let (r, w') :=
            save_to_csv str_float self
              (IZR (differing message received) / IZR (bits_num self))
              EbNodB (set_random_state w s) in
          (call m_one_run r, w')).
Proof.
  intros (Hfs & Hbn & Ht & Hspb) Hdiv Hnz.
  destruct (exact_partition _ _ Hfs Hbn Hdiv) as [Hq Hprod].
  destruct (generateSignal_ok next_bit self w) as (message & s1 & E1 & Hm & Hb);
    [lia|].
  assert (Hmod : modulation self message (generateCarryWave self)
                 = Ok (Np.zip_with Rmult (generateCarryWave self)
                         (map IZR (flat_map
                            (fun x => List.repeat x
                                        (Z.to_nat (samp_per_bit self)))
                            message)))).
  { apply modulation_ok; [lia|].
    rewrite generateCarryWave_length, Ht, Hm, Hspb. exact Hprod. }
  set (signal := Np.zip_with Rmult _ _) in *.
  assert (Hsig : length signal = Z.to_nat (sampling_frec self)).
  { unfold signal.
    rewrite zip_with_length, length_map, flat_map_repeat_length,
      generateCarryWave_length, Ht, Hm, Hspb. lia. }
  destruct (addNoise_ok next_gauss self signal (set_random_state w s1) Hnz)
    as (zs & s2 & E2 & Hz).
  set (noisy := Np.zip_with Rplus _ _) in *.
  assert (Hnoisy : length noisy = Z.to_nat (sampling_frec self)).
  { unfold noisy. rewrite zip_with_length, length_map. lia. }
  destruct (demodulation_bits self noisy Hfs Hbn Hdiv)
    as (received & E3 & Hr & _); [lia|].
  exists message, signal, zs, received, s2.
  repeat split; try assumption.
  unfold one_run, callM. unfold bind at 1. rewrite E1.
  unfold bind at 1, lift at 1. rewrite Hmod.
  unfold bind at 1. rewrite E2.
  unfold bind at 1, lift at 1. fold noisy. rewrite E3.
  unfold bind at 1, lift at 1.
  rewrite calculateBER_same_length by congruence.
  reflexivity.
Qed.

(** With the output directory missing, a run that is otherwise in order
    goes through modulation, noise, demodulation and the bit error rate,
    and only then fails: [save_to_csv] raises [FileNotFoundError], and the
    results table, the directory and the output are as before. *)
Theorem one_run_missing_directory self (EbNodB : Z) w
  (Hwf : well_formed self)
  (Hdiv : (sampling_frec self mod bits_num self = 0)%Z)
  (Hnz : 0 <= noise self) (Hdir : output_dir w = false) :
  exists w',
    one_run next_bit next_gauss str_float self EbNodB w
    = (Raise [m_one_run; m_save_to_csv] FileNotFoundError, w')
    /\ same_files w w'.
Proof.
  destruct (one_run_pipeline self EbNodB w Hwf Hdiv Hnz)
    as (message & signal & zs & received & s & _ & _ & _ & _ & _ & _ & Hrun).
  exists (set_random_state w s). split; [|apply same_files_random].
  rewrite Hrun. unfold save_to_csv, callM, bind, open_bers_csv.
  cbn [output_dir set_random_state]. rewrite Hdir. reflexivity.
Qed.

End RunFacts.

Lemma one_run_missing_directory_witness :
  exists w',
    one_run toy_bit toy_gauss toy_str tiny 3
      (Build_world tt false ""%string [])
    = (Raise [m_one_run; m_save_to_csv] FileNotFoundError, w')
    /\ bers_csv w' = ""%string.
Proof.
  destruct (one_run_missing_directory toy_bit toy_gauss toy_str tiny 3
              (Build_world tt false ""%string []))
    as (w' & Hrun & _ & Hcsv & _).
  - unfold well_formed; cbn; lia.
  - reflexivity.
  - cbn; lra.
  - reflexivity.
  - exists w'. split; [exact Hrun | exact Hcsv].
Defined.

(** ** The noise schedule *)

(** Along the sweep the noise level is positive and strictly decreasing:
    a larger index means a quieter channel.  From index 0 on it is at
    most [sqrt 2]. *)
Theorem sweep_noise_decreasing (n m : Z) (Hnm : (n < m)%Z) :
  0 < sweep_noise m < sweep_noise n
  /\ ((0 <= n)%Z -> sweep_noise n <= sqrt 2).
Proof.
  assert (Hdec : forall a b : Z, (a < b)%Z -> sweep_noise b < sweep_noise a).
  { intros a b Hab. unfold sweep_noise.
    assert (Ha : 0 < Rpower 10 (IZR a / 10)) by (unfold Rpower; apply exp_pos).
    assert (Hlt : Rpower 10 (IZR a / 10) < Rpower 10 (IZR b / 10)).
    { apply Rpower_lt; [lra|]. apply IZR_lt in Hab. lra. }
    assert (Hsa : 0 < sqrt (2 * Rpower 10 (IZR a / 10)))
      by (apply sqrt_lt_R0; lra).
    assert (Hs : sqrt (2 * Rpower 10 (IZR a / 10))
                 < sqrt (2 * Rpower 10 (IZR b / 10)))
      by (apply sqrt_lt_1; lra).
    apply Rmult_lt_compat_r; [lra|].
    unfold Rdiv. rewrite !Rmult_1_l.
    apply Rinv_lt_contravar; [|exact Hs].
    apply Rmult_lt_0_compat; lra. }
  split; [split; [apply sweep_noise_pos | now apply Hdec]|].
  intros Hn. destruct sweep_noise_0 as [E0 E1].
  destruct (Z.eq_dec n 0) as [->|Hne]; [lra|].
  left. rewrite <- E1, <- E0. apply Hdec. lia.
Qed.

Lemma sweep_noise_decreasing_witness :
  0 < sweep_noise 11 < sweep_noise 0.
Proof.
  apply (sweep_noise_decreasing 0 11). lia.
Defined.

(** ** A noise-free run, end to end *)

Lemma round1_zero : Np.round1 0 = 0.
Proof.
  unfold Np.round1, Np.rint.
  replace (0 * 10) with (INR 0) by (simpl; ring).
  rewrite Int_part_INR. cbn [Z.of_nat INR].
  destruct (Rlt_dec (0 - 0) (1 / 2)); [|lra].
  unfold Rdiv. ring.
Qed.

(** On the simulator of 1000 samples, carrier frequency 10, 10 bits and
    noise level 0, with the output directory in place, a run returns
    whatever message and deviates are drawn, and the row it appends
    records the noise level 0 and the bit error rate 0. *)
Theorem noise_free_run_records_zero {rng : Type}
  (next_bit : rng -> bool * rng) (next_gauss : rng -> R * rng)
  (str_float : R -> string) (self : ASK) (EbNodB : Z) (w : world rng)
  (Hinit : __init__ 1000 10 10 0 = Ok self)
  (Hdir : output_dir w = true) :
  exists w',
    one_run next_bit next_gauss str_float self EbNodB w = (Ok tt, w')
    /\ bers_csv w'
       = (bers_csv w
          ++ "ASK;1000;10;10;" ++ str_float 0 ++ ";" ++ str_float 0
          ++ ";" ++ str_int EbNodB ++ CRLF)%string.
Proof.
  destruct (init_inv _ _ _ _ _ Hinit)
    as (Efs & Efc & Ebn & Enz & Ht & _ & Espb).
  change (Z.quot 1000 10) with 100%Z in Espb.
  assert (Hwf : well_formed self).
  { unfold well_formed. rewrite Efs, Ebn, Espb.
    apply linspace_length in Ht. repeat split; try lia; assumption. }
  destruct (one_run_pipeline next_bit next_gauss str_float self EbNodB w Hwf)
    as (message & signal & zs & received & s
        & Hbits & Hm & Hmod & Hz & Hdem & _ & Hrun);
    [rewrite Efs, Ebn; reflexivity | rewrite Enz; lra |].
  rewrite Enz in Hdem. rewrite add_zero_noise in Hdem by exact Hz.
  rewrite Ebn in Hm. change (Z.to_nat 10) with 10%nat in Hm.
  destruct (round_trip_within_tolerance self (generateCarryWave self) message
              Hinit) as (signal' & Hmod' & Hdem'); try assumption.
  { rewrite generateCarryWave_length. apply linspace_length in Ht.
    rewrite Ht. reflexivity. }
  { intros i _. rewrite Rminus_diag, Rabs_R0. lra. }
  assert (signal' = signal) by congruence. subst signal'.
  assert (received = message) by congruence. subst received.
  rewrite differing_same in Hrun.
  rewrite save_to_csv_ok in Hrun by exact Hdir.
  eexists. split; [exact Hrun|].
  cbn [bers_csv set_random_state]. unfold csv_fields.
  rewrite writerow_seven, Efs, Efc, Ebn, Enz, round1_zero.
  replace (IZR 0 / IZR 10) with 0 by (unfold Rdiv; ring).
  reflexivity.
Qed.

Lemma noise_free_run_records_zero_witness :
  exists self w',
    __init__ 1000 10 10 0 = Ok self
    /\ one_run toy_bit toy_gauss toy_str self 5 toy_world = (Ok tt, w')
    /\ bers_csv w' = ("ASK;1000;10;10;<float>;<float>;5" ++ CRLF)%string.
Proof.
  destruct (init_well_formed 1000 10 10 0) as (self & Hinit & _); try lia.
  destruct (noise_free_run_records_zero toy_bit toy_gauss toy_str self 5
              toy_world Hinit eq_refl) as (w' & Hrun & Hcsv).
  exists self, w'. split; [exact Hinit|]. split; [exact Hrun|].
  rewrite Hcsv. reflexivity.
Defined.

(** ** What a sweep leaves behind *)

Lemma string_app_nil_r (x : string) : (x ++ "")%string = x.
Proof. induction x as [|c x IH]; simpl; [reflexivity|now rewrite IH]. Qed.

Section SweepOutcomes.

Context {rng : Type}.
Variable next_bit : rng -> bool * rng.
Variable next_gauss : rng -> R * rng.
Variable str_float : R -> string.
Implicit Types (w : world rng) (self : ASK).

Lemma one_run_traceback self (EbNodB : Z) w tb e w' :
  one_run next_bit next_gauss str_float self EbNodB w = (Raise tb e, w') ->
  exists tb', tb = m_one_run :: tb'.
Proof.
  unfold one_run, callM.
  destruct (bind _ _ w) as [[u|tb0 e0] w0]; cbn [call]; intros H;
    inversion H; subst. eauto.
Qed.

Lemma one_run_only_appends self (EbNodB : Z) w r w' :
  one_run next_bit next_gauss str_float self EbNodB w = (r, w') ->
  output_dir w' = output_dir w /\ stdout w' = stdout w
  /\ exists rows, bers_csv w' = (bers_csv w ++ rows)%string.
Proof.
  intros H. apply one_run_inv in H. destruct H as (Hcsv & Hd & Hs).
  split; [exact Hd|]. split; [exact Hs|].
  destruct r as [u|tb e].
  - destruct Hcsv as (_ & _ & _ & _ & ber & _ & _ & _ & Hcsv). eauto.
  - exists ""%string. now rewrite string_app_nil_r.
Qed.

(** The loop of the sweep, whatever its outcome: it prints nothing, adds
    to the results table without touching what was there, changes only
    the noise level of the object, and an exception that leaves it comes
    out of a run. *)
Lemma simulate_loop_outcome (ns : list Z) :
  forall self w r w',
    simulate_loop next_bit next_gauss str_float self ns w = (r, w') ->
    output_dir w' = output_dir w /\ stdout w' = stdout w
    /\ (exists rows, bers_csv w' = (bers_csv w ++ rows)%string)
    /\ match r with
       | Ok self' => exists v, self' = set_noise self v
       | Raise tb e => exists tb', tb = m_one_run :: tb'
       end.
Proof.
  induction ns as [|n ns IH]; intros self w r w' H.
  - cbn in H. unfold ret in H. inversion H; subst.
    repeat split; try reflexivity.
    + exists ""%string. now rewrite string_app_nil_r.
    + exists (noise self). now destruct self.
  - cbn [simulate_loop] in H. unfold bind in H.
    destruct (one_run next_bit next_gauss str_float
                (set_noise self (sweep_noise n)) n w)
      as [[u|tb e] w1] eqn:Hrun.
    + destruct (one_run_only_appends _ _ _ _ _ Hrun) as (Hd & Hs & rows & Hc).
      destruct (IH _ _ _ _ H) as (Hd' & Hs' & (rows' & Hc') & Hr).
      split; [congruence|]. split; [congruence|]. split.
      * exists (rows ++ rows')%string.
        now rewrite Hc', Hc, string_app_assoc.
      * destruct r as [self'|tb e]; [|exact Hr].
        destruct Hr as [v ->]. exists v. apply set_noise_twice.
    + inversion H; subst.
      destruct (one_run_only_appends _ _ _ _ _ Hrun) as (Hd & Hs & Hc).
      repeat split; try assumption.
      now apply one_run_traceback in Hrun.
Qed.

(** A sweep only ever adds to the results table and leaves the output
    directory as it is; it changes nothing of the object but the noise
    level.  Its notice is printed exactly when it returns: a sweep that
    raises has printed nothing, and its exception comes out of a run. *)
Theorem simulate_outcome self w r w'
  (H : simulate next_bit next_gauss str_float self w = (r, w')) :
  output_dir w' = output_dir w
  /\ (exists rows, bers_csv w' = (bers_csv w ++ rows)%string)
  /\ match r with
     | Ok self' =>
         stdout w' = stdout w ++ ["Koniec symulacji modulacji ASK"%string]
         /\ exists v, self' = set_noise self v
     | Raise tb e =>
         stdout w' = stdout w
         /\ exists tb', tb = m_simulate :: m_one_run :: tb'
     end.
Proof.
  unfold simulate, callM, bind in H.
  destruct (simulate_loop next_bit next_gauss str_float self (Np.arange 12) w)
    as [[self1|tb e] w1] eqn:Hloop;
    destruct (simulate_loop_outcome _ _ _ _ _ Hloop)
      as (Hd & Hs & Hc & Hr); cbn in H; inversion H; subst; cbn.
  - repeat split; try assumption. now rewrite Hs.
  - repeat split; try assumption.
    destruct Hr as [tb' ->]. eauto.
Qed.

End SweepOutcomes.

Lemma simulate_outcome_witness :
  simulate toy_bit toy_gauss toy_str uneven toy_world
  = (Raise [m_simulate; m_one_run; m_modulation] ValueError, toy_world)
  /\ stdout toy_world = stdout toy_world
  /\ exists tb', [m_simulate; m_one_run; m_modulation]
                 = m_simulate :: m_one_run :: tb'.
Proof.
  assert (Hsim : simulate toy_bit toy_gauss toy_str uneven toy_world
                 = (Raise [m_simulate; m_one_run; m_modulation] ValueError,
                    toy_world)) by (np_eval; reflexivity).
  split; [exact Hsim|].
  destruct (simulate_outcome toy_bit toy_gauss toy_str uneven toy_world
              _ _ Hsim) as (_ & _ & Hs & Htb).
  split; [exact Hs | exact Htb].
Defined.

(** ** The demonstration run *)

Section DemoFacts.

Context {rng : Type}.
Variable next_bit : rng -> bool * rng.
Variable next_gauss : rng -> R * rng.
Implicit Types (w : world rng) (self : ASK) (d : ask_dir).

Lemma dbind_ok {A B} (c : D rng A) (k : A -> D rng B) st (a : A) st' :
  c st = (Ok a, st') -> dbind c k st = k a st'.
Proof. intros H. unfold dbind. now rewrite H. Qed.

Lemma dbind_raise {A B} (c : D rng A) (k : A -> D rng B) st tb e st' :
  c st = (Raise tb e, st') -> dbind c k st = (Raise tb e, st').
Proof. intros H. unfold dbind. now rewrite H. Qed.


Lemma np_save_ok (f : npy_file) (arr : ndarray) w d :
  ask_dir_exists d = true ->
  np_save f arr (w, d) = (Ok tt, (w, store f arr d)).
Proof. intros H. unfold np_save. cbn [fst snd]. now rewrite H. Qed.

Lemma in_world_run {A} (c : world rng -> result A * world rng) w d r w' :
  c w = (r, w') -> in_world c (w, d) = (r, (w', d)).
Proof. intros H. unfold in_world. cbn [fst snd]. now rewrite H. Qed.


(** Without its directory the demonstration run draws the message and
    then fails on the first file with [FileNotFoundError]; on an object
    whose bit count does not divide its sampling frequency (above 1) it
    fails in [modulation] with [ValueError], after it has written the
    message and nothing else.  Either way the results table is not
    touched. *)
Theorem demo_run_failures self w d
  (Hwf : well_formed self) :
  (ask_dir_exists d = false ->
   exists w',
     demo_run next_bit next_gauss self (w, d)
     = (Raise [] FileNotFoundError, (w', d))
     /\ same_files w w')
  /\ (ask_dir_exists d = true ->
      (1 < sampling_frec self)%Z ->
      (sampling_frec self mod bits_num self <> 0)%Z ->
      exists message w',
        demo_run next_bit next_gauss self (w, d)
        = (Raise [m_modulation] ValueError,
           (w', store message_file (IntArray message) d))
        /\ length message = Z.to_nat (bits_num self)
        /\ same_files w w').
Proof.
  pose proof Hwf as (Hfs & Hbn & Ht & Hspb).
  destruct (generateSignal_ok next_bit self w) as (message & s1 & E1 & Hm & _);
    [lia|].
  split.
  - intros Hdir. exists (set_random_state w s1).
    split; [|apply same_files_random].
    unfold demo_run.
    rewrite (dbind_ok _ _ _ _ _ (in_world_run _ _ d _ _ E1)).
    apply dbind_raise. unfold np_save. cbn [fst snd]. now rewrite Hdir.
  - intros Hdir Hfs1 Hnd. exists message, (set_random_state w s1).
    split; [|split; [exact Hm | apply same_files_random]].
    destruct (modulation_inexact self message Hwf Hfs1 Hnd Hm)
      as (_ & _ & _ & _ & Hmod).
    unfold demo_run.
    rewrite (dbind_ok _ _ _ _ _ (in_world_run _ _ d _ _ E1)).
    rewrite (dbind_ok _ _ _ _ _ (np_save_ok _ _ _ _ Hdir)).
    apply dbind_raise. unfold pure_step. now rewrite Hmod.
Qed.

End DemoFacts.


Lemma demo_run_failures_witness :
  exists message w',
    demo_run toy_bit toy_gauss uneven (toy_world, empty_ask_dir)
    = (Raise [m_modulation] ValueError,
       (w', store message_file (IntArray message) empty_ask_dir))
    /\ length message = 2%nat.
Proof.
  destruct (demo_run_failures toy_bit toy_gauss uneven toy_world empty_ask_dir)
    as (_ & Huneven).
  - unfold well_formed; cbn; lia.
  - destruct Huneven as (message & w' & Hrun & Hlen & _).
    + reflexivity.
    + cbn; lia.
    + vm_compute; discriminate.
    + exists message, w'. split; [exact Hrun | exact Hlen].
Defined.
